(** * SBOLExplorer: a shallow embedding of the query, clustering,
      sequence-search and gateway modules

    The four Python modules under [src/flask] are embedded as Rocq functions:
    [query.py] as [Module Query], [cluster.py] as [Module Cluster],
    [sequencesearch.py] as [Module SequenceSearch] and [explorer.py] as
    [Module Explorer].  [Module Py] holds the part of the Python runtime and
    standard library the four modules rely on (exceptions, insertion-ordered
    dictionaries, [str.split], [str.splitlines], [json.dumps]/[json.loads],
    [functools.lru_cache]).

    The first part of the file contains the definitions, the second part the
    lemmas and theorems about them. *)

From Stdlib Require Import ZArith NArith Ascii.
From Stdlib Require Import Floats.PrimFloat.
From stdpp Require Import gmap strings list pretty sorting.

Open Scope string_scope.

(* ===================================================================== *)
(** * Part I: definitions                                                 *)
(* ===================================================================== *)

(** ** The Python runtime *)

Module Py.

(** An exception object: its class and the text [str(e)] yields. *)
Record exn := Exn { exn_class : string; exn_msg : string }.

Definition Exception (msg : string) : exn := Exn "Exception" msg.
Definition IndexError : exn := Exn "IndexError" "list index out of range".
Definition KeyError (key : string) : exn := Exn "KeyError" ("'" +:+ key +:+ "'").
Definition NameError (name : string) : exn :=
  Exn "NameError" ("name '" +:+ name +:+ "' is not defined").
Definition ValueError (msg : string) : exn := Exn "ValueError" msg.
Definition JSONDecodeError : exn := Exn "JSONDecodeError" "Expecting value".

(** The outcome of evaluating a Python expression or call. *)
Inductive result (A : Type) : Type :=
| Ok (a : A)
| Raised (e : exn).
Arguments Ok {A} a.
Arguments Raised {A} e.

Definition is_ok {A} (r : result A) : bool :=
  match r with Ok _ => true | Raised _ => false end.

Definition result_bind {A B} (r : result A) (k : A → result B) : result B :=
  match r with Ok a => k a | Raised e => Raised e end.

(** [xs[i]]: raises [IndexError] out of range (non-negative indices only). *)
Definition index {A} (xs : list A) (i : nat) : result A :=
  match xs !! i with Some x => Ok x | None => Raised IndexError end.

(** A loop body run over a list, stopping at the first exception. *)
Fixpoint for_each {A S} (body : S → A → result S) (xs : list A) (s : S) : result S :=
  match xs with
  | [] => Ok s
  | x :: xs' => result_bind (body s x) (for_each body xs')
  end.

(** *** Dictionaries

    A [dict] keeps its keys in insertion order; assigning to a key that is
    present replaces the value in place, assigning to a new key appends. *)
Abbreviation dict V := (list (string * V)).

Fixpoint dict_get {V} (k : string) (d : dict V) : option V :=
  match d with
  | [] => None
  | (k', v) :: d' => if decide (k = k') then Some v else dict_get k d'
  end.

Definition dict_keys {V} (d : dict V) : list string := d.*1.

(** [k in d] *)
Definition dict_mem {V} (k : string) (d : dict V) : bool :=
  bool_decide (k ∈ dict_keys d).

(** [d[k] = v] *)
Fixpoint dict_set {V} (k : string) (v : V) (d : dict V) : dict V :=
  match d with
  | [] => [(k, v)]
  | (k', v') :: d' =>
      if decide (k = k') then (k, v) :: d' else (k', v') :: dict_set k v d'
  end.

(** A well-formed dictionary has no repeated key. *)
Definition dict_wf {V} (d : dict V) : Prop := NoDup (dict_keys d).

(** Dictionary equality ([==]) ignores insertion order. *)
Definition dict_eq {V} (d1 d2 : dict V) : Prop := d1 ≡ₚ d2.

(** *** Characters and strings

    A [string] is read as a sequence of code points below 256. *)
Definition quote : ascii := "034"%char.
Definition backslash : ascii := "\"%char.
Definition LF : ascii := "010"%char.
Definition CR : ascii := "013"%char.
Definition TAB : ascii := "009"%char.
Definition BS : ascii := "008"%char.
Definition FF : ascii := "012"%char.

Definition code (c : ascii) : N := N_of_ascii c.

(** [str(n)] for a non-negative integer. *)
Definition str_of_N (n : N) : string := pretty n.

(** [s[:-n]] *)
Definition drop_last (n : nat) (s : string) : string :=
  String.substring 0 (String.length s - n)%nat s.

(** [c.isspace()] for code points below 256. *)
Definition isspace (c : ascii) : bool :=
  let n := code c in
  ((9 <=? n) && (n <=? 13) || (28 <=? n) && (n <=? 32)
   || (n =? 133) || (n =? 160))%N.

(** The line boundaries of [str.splitlines] below 256. *)
Definition islinebreak (c : ascii) : bool :=
  let n := code c in
  ((10 <=? n) && (n <=? 13) || (28 <=? n) && (n <=? 30) || (n =? 133))%N.

Definition cons_head (c : ascii) (ws : list string) : list string :=
  match ws with
  | w :: ws' => String c w :: ws'
  | [] => [String c ""]
  end.

(** [s.split()]: the maximal runs of non-whitespace characters.
    [in_word] tells whether the character before [s] belongs to a field,
    which is then the head of the result. *)
Fixpoint split_go (in_word : bool) (s : string) : list string :=
  match s with
  | "" => if in_word then [""] else []
  | String c s' =>
      if isspace c then
        (if in_word then [""] else []) ++ split_go false s'
      else cons_head c (split_go true s')
  end.

Definition split (s : string) : list string := split_go false s.

(** [s.splitlines()]: no empty last line after a final line break, and
    carriage return plus line feed is one boundary. *)
Fixpoint splitlines_go (in_line : bool) (s : string) : list string :=
  match s with
  | "" => if in_line then [""] else []
  | String c s' =>
      if islinebreak c then
        "" :: match s' with
              | String c' s'' =>
                  if decide (c = CR ∧ c' = LF) then splitlines_go false s''
                  else splitlines_go false s'
              | "" => []
              end
      else cons_head c (splitlines_go true s')
  end.

Definition splitlines (s : string) : list string := splitlines_go false s.

(** [str.join] *)
Fixpoint join (sep : string) (xs : list string) : string :=
  match xs with
  | [] => ""
  | [x] => x
  | x :: xs' => x +:+ sep +:+ join sep xs'
  end.

(** *** JSON: [json.dumps(d, sort_keys=True)] and [json.loads] on flat
        objects whose values are strings *)

Definition hex_digit (n : N) : ascii :=
  ascii_of_N (if (n <? 10)%N then 48 + n else 87 + n).

(** One character of [py_encode_basestring_ascii]. *)
Definition escape_char (c : ascii) : string :=
  if decide (c = quote) then String backslash (String quote "")
  else if decide (c = backslash) then String backslash (String backslash "")
  else if decide (c = LF) then String backslash "n"
  else if decide (c = CR) then String backslash "r"
  else if decide (c = TAB) then String backslash "t"
  else if decide (c = BS) then String backslash "b"
  else if decide (c = FF) then String backslash "f"
  else if ((32 <=? code c) && (code c <=? 126))%N then String c ""
  else String backslash
         (String "u" (String "0" (String "0"
           (String (hex_digit (code c / 16)) (String (hex_digit (code c mod 16)) ""))))).

Fixpoint escape (s : string) : string :=
  match s with
  | "" => ""
  | String c s' => escape_char c +:+ escape s'
  end.

Definition encode_string (s : string) : string :=
  String quote (escape s +:+ String quote "").

Definition encode_item (kv : string * string) : string :=
  encode_string kv.1 +:+ ": " +:+ encode_string kv.2.

(** The order [sorted] puts the items of a dictionary in: by key. *)
Definition item_le {V} (a b : string * V) : Prop := String.le a.1 b.1.

Global Instance item_le_dec {V} : RelDecision (@item_le V).
Proof. intros a b. unfold item_le. apply _. Defined.

Definition sorted_items {V} (d : dict V) : dict V := merge_sort item_le d.

(** The text of the members of an object. *)
Definition members_text (items : dict string) : string :=
  join ", " (encode_item <$> items).

Definition json_dumps_sorted (d : dict string) : string :=
  "{" +:+ members_text (sorted_items d) +:+ "}".

Definition hex_value (c : ascii) : option N :=
  let n := code c in
  if ((48 <=? n) && (n <=? 57))%N then Some (n - 48)%N
  else if ((97 <=? n) && (n <=? 102))%N then Some (n - 87)%N
  else if ((65 <=? n) && (n <=? 70))%N then Some (n - 55)%N
  else None.

(** A four-digit escape; code points from 256 on are outside the model. *)
Definition unicode_escape (a b c d : ascii) : option ascii :=
  ha ← hex_value a; hb ← hex_value b; hc ← hex_value c; hd ← hex_value d;
  let n := (((ha * 16 + hb) * 16 + hc) * 16 + hd)%N in
  if (n <? 256)%N then Some (ascii_of_N n) else None.

Definition simple_escape (c : ascii) : option ascii :=
  if decide (c = quote) then Some quote
  else if decide (c = backslash) then Some backslash
  else if decide (c = "/"%char) then Some "/"%char
  else if decide (c = "b"%char) then Some BS
  else if decide (c = "f"%char) then Some FF
  else if decide (c = "n"%char) then Some LF
  else if decide (c = "r"%char) then Some CR
  else if decide (c = "t"%char) then Some TAB
  else None.

(** [py_scanstring] from the character after the opening quote: the decoded
    string and the text after the closing quote.  Control characters are
    refused (strict mode). *)
Fixpoint scanstring (s : string) : option (string * string) :=
  match s with
  | "" => None
  | String c s1 =>
      if decide (c = quote) then Some ("", s1)
      else if decide (c = backslash) then
        match s1 with
        | String "u" (String a (String b (String c' (String d s2)))) =>
            x ← unicode_escape a b c' d;
            '(t, rest) ← scanstring s2;
            Some (String x t, rest)
        | String e s2 =>
            x ← simple_escape e;
            '(t, rest) ← scanstring s2;
            Some (String x t, rest)
        | "" => None
        end
      else if (code c <? 32)%N then None
      else '(t, rest) ← scanstring s1; Some (String c t, rest)
  end.

Definition json_ws (c : ascii) : bool :=
  bool_decide (c = " "%char ∨ c = TAB ∨ c = LF ∨ c = CR).

Fixpoint skip_ws (s : string) : string :=
  match s with
  | String c s' => if json_ws c then skip_ws s' else s
  | "" => ""
  end.

(** The members of an object, from the opening quote of a key up to the
    closing brace.  A value that is not a string is outside the model. *)
Fixpoint parse_members (fuel : nat) (s : string) (acc : dict string)
  : option (dict string * string) :=
  match fuel with
  | O => None
  | S fuel' =>
      match s with
      | String c s1 =>
          if decide (c = quote) then
            '(k, s2) ← scanstring s1;
            match skip_ws s2 with
            | String ":" s3 =>
                match skip_ws s3 with
                | String c' s4 =>
                    if decide (c' = quote) then
                      '(v, s5) ← scanstring s4;
                      match skip_ws s5 with
                      | String "," s6 =>
                          parse_members fuel' (skip_ws s6) (dict_set k v acc)
                      | String "}" s6 => Some (dict_set k v acc, s6)
                      | _ => None
                      end
                    else None
                | "" => None
                end
            | _ => None
            end
          else None
      | "" => None
      end
  end.

Definition json_loads (s : string) : option (dict string) :=
  match skip_ws s with
  | String "{" s1 =>
      match skip_ws s1 with
      | String "}" s2 => if decide (skip_ws s2 = "") then Some [] else None
      | s1' =>
          '(d, s2) ← parse_members (String.length s) s1' [];
          if decide (skip_ws s2 = "") then Some d else None
      end
  | _ => None
  end.

(** *** [functools.lru_cache(maxsize)]

    The cache keeps its entries from the least to the most recently used.
    A hit moves the entry to the recent end.  A miss calls the wrapped
    function; when that returns, the result is stored at the recent end, and
    if the cache is full the entry at the old end makes room for it.  An
    exception of the wrapped function leaves the entries as they are.  A
    miss is counted before the wrapped function is called, whatever comes
    of the call. *)
Record lru (V : Type) := Lru {
  lru_entries : dict V;
  lru_hits : N;
  lru_misses : N;
}.
Arguments Lru {V}.
Arguments lru_entries {V}.
Arguments lru_hits {V}.
Arguments lru_misses {V}.

Definition lru_empty {V} : lru V := Lru [] 0 0.

Definition lru_remove {V} (k : string) (d : dict V) : dict V :=
  filter (λ kv, kv.1 ≠ k) d.

Definition lru_store {V} (maxsize : nat) (k : string) (v : V) (d : dict V) : dict V :=
  if bool_decide (maxsize ≤ length d)%nat then tail d ++ [(k, v)] else d ++ [(k, v)].

Definition lru_call {V S} (maxsize : nat)
    (f : string → S → option (result V * S))
    (key : string) (c : lru V) (s : S) : option (result V * lru V * S) :=
  match dict_get key (lru_entries c) with
  | Some v =>
      Some (Ok v,
            Lru (lru_remove key (lru_entries c) ++ [(key, v)])
                (lru_hits c + 1) (lru_misses c),
            s)
  | None =>
      match f key s with
      | None => None
      | Some (Raised e, s') =>
          Some (Raised e, Lru (lru_entries c) (lru_hits c) (lru_misses c + 1), s')
      | Some (Ok v, s') =>
          Some (Ok v,
                Lru (lru_store maxsize key v (lru_entries c))
                    (lru_hits c) (lru_misses c + 1),
                s')
      end
  end.

(** What a call that returns does to the keys of the cache. *)
Definition lru_touch (maxsize : nat) (k : string) (keys : list string) : list string :=
  if bool_decide (k ∈ keys) then (filter (λ k', k' ≠ k) keys ++ [k])%list
  else ((if bool_decide (maxsize ≤ length keys)%nat then tail keys else keys)
        ++ [k])%list.

End Py.

(** ** [query.py]: the SPARQL query layer *)

Module Query.
Import Py.

(** The two configuration entries the module reads from
    [utils.get_config()]. *)
Record config := Config {
  sparql_endpoint : string;
  distributed_search : bool;
}.

(** A descriptor of the directory of peer registries ([utils.get_wor()]). *)
Record instance := Instance { instanceUrl : string }.

(** A result row: variable name to value. *)
Abbreviation row := (list (string * string)).

(** A binding of a SPARQL-JSON document: variable name to the content of
    its ["value"] member, [None] when that member is missing. *)
Abbreviation binding := (list (string * option string)).

(** What the module looks at in the object [requests.get] returns:
    [r.status_code], [r.text] and [r.json()['results']['bindings']] (or
    the exception that expression raises). *)
Record response := Response {
  status_code : Z;
  text : string;
  json_bindings : result (list binding);
}.

(** What the module does to the outside, in the order it happens. *)
Inductive event :=
| Log (msg : string)        (* utils.log *)
| Print (s : string)        (* print(..., end="\r") *)
| HttpGet (url : string).   (* requests.get *)

(** The outside of the module: the network behind [requests.get] and
    [utils.get_wor], and [urllib.parse.urlencode]. *)
Class Net := {
  world : Type;
  requests_get : string → world → result response * world;
  get_wor : world → result (list instance) * world;
  urlencode : list (string * string) → string;
}.

Record state `{Net} := State {
  cfg : config;
  net : world;
  trace : list event;
}.
Arguments State {_} cfg net trace.

Definition emit `{Net} (ev : event) (st : state) : state :=
  State (cfg st) (net st) (trace st ++ [ev]).

(** The [HttpGet] events of a trace. *)
Definition requests_of (tr : list event) : list string :=
  omap (λ ev, match ev with HttpGet url => Some url | _ => None end) tr.

Definition bar : list string := [
  "[        ]";
  "[=       ]";
  "[===     ]";
  "[====    ]";
  "[=====   ]";
  "[======  ]";
  "[======= ]";
  "[========]";
  "[ =======]";
  "[  ======]";
  "[   =====]";
  "[    ====]";
  "[     ===]";
  "[      ==]";
  "[       =]";
  "[        ]";
  "[        ]"
].

Definition query_prefix : string := "
    PREFIX rdf: <http://www.w3.org/1999/02/22-rdf-syntax-ns#>
    PREFIX dcterms: <http://purl.org/dc/terms/>
    PREFIX dc: <http://purl.org/dc/elements/1.1/>
    PREFIX sbh: <http://wiki.synbiohub.org/wiki/Terms/synbiohub#>
    PREFIX synbiohub: <http://synbiohub.org#>
    PREFIX igem: <http://wiki.synbiohub.org/wiki/Terms/igem#>
    PREFIX prov: <http://www.w3.org/ns/prov#>
    PREFIX sbol2: <http://sbols.org/v2#>
    PREFIX xsd: <http://www.w3.org/2001/XMLSchema#>
    PREFIX rdfs: <http://www.w3.org/2000/01/rdf-schema#>
    PREFIX purl: <http://purl.obolibrary.org/obo/>
    PREFIX ncbi: <http://www.ncbi.nlm.nih.gov#>
    ".

Definition limit : N := 10000.

(** [re.sub(r'FROM.*\n', '', query)].  [line_end s] is the number of
    characters of [s] up to and including its first line feed. *)
Fixpoint line_end (s : string) : option nat :=
  match s with
  | "" => None
  | String c s' => if decide (c = LF) then Some 1%nat else S <$> line_end s'
  end.

Definition from_match (s : string) : option nat :=
  if String.prefix "FROM" s then line_end s else None.

Fixpoint sub_from_go (skip : nat) (s : string) : string :=
  match s with
  | "" => ""
  | String c s' =>
      match skip with
      | S n => sub_from_go n s'
      | O =>
          match from_match s with
          | Some m => sub_from_go (m - 1) s'
          | None => String c (sub_from_go 0 s')
          end
      end
  end.

Definition sub_from (query : string) : string := sub_from_go 0 query.

(** The inner loop of [send_query]: one row per binding. *)
Definition row_of_binding (b : binding) : result row :=
  for_each (λ (res : row) (kv : string * option string),
              match kv.2 with
              | Some v => Ok (dict_set kv.1 v res)
              | None => Raised (KeyError "value")
              end) b [].

Fixpoint rows_of_bindings (bs : list binding) (results : list row) : result (list row) :=
  match bs with
  | [] => Ok results
  | b :: bs' =>
      match row_of_binding b with
      | Ok r => rows_of_bindings bs' (results ++ [r])
      | Raised e => Raised e
      end
  end.

(** The pieces of the text [query_parts] builds, and the text for given
    arguments. *)
Definition parts_select : string := "
    SELECT DISTINCT
        ?subject
        ?displayId
        ?version
        ?name
        ?description
        ?type
        ?graph
        ?role
        ?sboltype
    ".

Definition parts_where : string := "
    WHERE {
    ".

Definition parts_subject : string := "
        ?subject a ?type .
        ?subject sbh:topLevel ?subject .".

Definition parts_graph : string := "
    GRAPH ?graph { ?subject ?a ?t } .".

Definition parts_optional : string := "
        OPTIONAL { ?subject sbol2:displayId ?displayId . }
        OPTIONAL { ?subject sbol2:version ?version . }
        OPTIONAL { ?subject dcterms:title ?name . }
        OPTIONAL { ?subject dcterms:description ?description . }
        OPTIONAL { ?subject sbol2:role ?role . }
        OPTIONAL { ?subject sbol2:type ?sboltype . }
    } 
    ".

Definition parts_query (_from criteria : string) (indexing : bool) : string :=
  parts_select +:+ _from +:+ parts_where +:+ criteria +:+ parts_subject
    +:+ (if indexing then parts_graph else "") +:+ parts_optional.

Section WithNet.
Context `{Net}.

Definition send_query (query endpoint : string) (st : state)
  : result (list row) * state :=
  let params :=
    ("query", query) ::
    (if decide (endpoint = sparql_endpoint (cfg st))
     then [("default-graph-uri", "")] else []) in
  let url := endpoint +:+ urlencode params in
  let '(r, w) := requests_get url (net st) in
  let st := State (cfg st) w (trace st ++ [HttpGet url]) in
  match r with
  | Raised e =>
      (Raised (Exception "Local SynBioHub isn't responding"),
       emit (Log ("[ERROR] exception when connecting: " +:+ exn_msg e)) st)
  | Ok r =>
      if decide (status_code r ≠ 200%Z) then
        (Raised (Exception (url +:+ " is not responding")),
         emit (Log (text r))
           (emit (Log ("[ERROR] Got status code when querying: "
                       +:+ pretty (status_code r))) st))
      else
        match json_bindings r with
        | Raised e => (Raised e, st)
        | Ok bs => (rows_of_bindings bs [], st)
        end
  end.

(** The [while True] loop of [page_query].  [fuel] bounds the number of
    rounds; [None] means the bound was reached with the loop still
    running. *)
Fixpoint page_loop (fuel : nat) (query endpoint : string)
    (bar_counter : nat) (offset : N) (results : list row) (st : state)
  : option (result (list row) * state) :=
  match fuel with
  | O => None
  | S fuel' =>
      let st := emit (Print (default "" (bar !! (bar_counter mod length bar)%nat))) st in
      let full_query :=
        query_prefix +:+ query +:+ "OFFSET " +:+ str_of_N offset
                     +:+ " LIMIT " +:+ str_of_N limit in
      match send_query full_query endpoint st with
      | (Raised e, st') => Some (Raised e, st')
      | (Ok new_results, st') =>
          let results := (results ++ new_results)%list in
          if decide (N.of_nat (length new_results) ≠ limit) then
            Some (Ok results, st')
          else
            page_loop fuel' query endpoint (S bar_counter) (offset + limit) results st'
      end
  end.

Definition page_query (fuel : nat) (query endpoint : string) (st : state)
  : option (result (list row) * state) :=
  let st := emit (Log ("Current endpoint: " +:+ endpoint)) st in
  let query :=
    if decide (endpoint ≠ sparql_endpoint (cfg st)) then sub_from query else query in
  page_loop fuel query endpoint 0 0 [] st.

(** The loop of [deduplicate_results] over the rows, then over the set. *)
Definition deduplicate_results (results : list row) : result (list row) :=
  let deduped : gset string :=
    foldl (λ acc r, acc ∪ {[ json_dumps_sorted r ]}) ∅ results in
  for_each (λ (out : list row) s,
              match json_loads s with
              | Some r => Ok (out ++ [r])%list
              | None => Raised JSONDecodeError
              end) (elements deduped) [].

(** The [for endpoint in endpoints] loop of [query_sparql]. *)
Fixpoint query_endpoints (fuel : nat) (query : string) (endpoints : list string)
    (results : list row) (st : state) : option (result (list row) * state) :=
  match endpoints with
  | [] => Some (Ok results, st)
  | endpoint :: endpoints' =>
      match page_query fuel query endpoint st with
      | None => None
      | Some (Raised _, st') =>
          Some (Raised (Exception "Endpoint not responding"),
                emit (Log ("[ERROR] failed querying:" +:+ endpoint)) st')
      | Some (Ok rows, st') =>
          query_endpoints fuel query endpoints' (results ++ rows)%list st'
      end
  end.

(** The list [query_sparql] builds before it queries. *)
Definition endpoints_of (st : state) : result (list string) * state :=
  let endpoints := [sparql_endpoint (cfg st)] in
  if distributed_search (cfg st) then
    match get_wor (net st) with
    | (Raised e, w) => (Raised e, State (cfg st) w (trace st))
    | (Ok instances, w) =>
        (Ok (endpoints ++ ((λ i, instanceUrl i +:+ "/sparql?") <$> instances))%list,
         State (cfg st) w (trace st))
    end
  else (Ok endpoints, st).

Definition query_sparql (fuel : nat) (query : string) (st : state)
  : option (result (list row) * state) :=
  match endpoints_of st with
  | (Raised e, st') => Some (Raised e, st')
  | (Ok endpoints, st') =>
      match query_endpoints fuel query endpoints [] st' with
      | None => None
      | Some (Raised e, st'') => Some (Raised e, st'')
      | Some (Ok results, st'') => Some (deduplicate_results results, st'')
      end
  end.

(** [@lru_cache(maxsize=32)] around [query_sparql]. *)
Definition maxsize : nat := 32.

Definition memoized_query_sparql (fuel : nat) (query : string)
    (cache : lru (list row)) (st : state)
  : option (result (list row) * lru (list row) * state) :=
  lru_call maxsize (query_sparql fuel) query cache st.

Definition query_parts (fuel : nat) (_from criteria : string) (indexing : bool)
    (cache : lru (list row)) (st : state)
  : option (result (list row) * lru (list row) * state) :=
  memoized_query_sparql fuel (parts_query _from criteria indexing) cache st.

(** A sequence of calls of [memoized_query_sparql].  Next to the cache and
    the state it leaves, the run yields the queries that were answered (from
    the cache or by the store), in the order of the calls. *)
Fixpoint run_queries (fuel : nat) (queries : list string) (served : list string)
    (cache : lru (list row)) (st : state)
  : option (list string * lru (list row) * state) :=
  match queries with
  | [] => Some (served, cache, st)
  | q :: queries' =>
      match memoized_query_sparql fuel q cache st with
      | None => None
      | Some (Ok _, cache', st') =>
          run_queries fuel queries' (served ++ [q]) cache' st'
      | Some (Raised _, cache', st') =>
          run_queries fuel queries' served cache' st'
      end
  end.

(** *** Vocabulary of the statements *)

(** The address [send_query] requests for a query text. *)
Definition page_url (c : config) (endpoint full_query : string) : string :=
  endpoint +:+
  urlencode (("query", full_query) ::
             (if decide (endpoint = sparql_endpoint c)
              then [("default-graph-uri", "")] else [])).

(** The text of the page request at a given offset. *)
Definition full_query_at (query : string) (offset : N) : string :=
  query_prefix +:+ query +:+ "OFFSET " +:+ str_of_N offset
               +:+ " LIMIT " +:+ str_of_N limit.

(** The text [page_query] pages through for an endpoint. *)
Definition paged_text (c : config) (query endpoint : string) : string :=
  if decide (endpoint ≠ sparql_endpoint c) then sub_from query else query.

Definition progress (bar_counter : nat) : event :=
  Print (default "" (bar !! (bar_counter mod length bar)%nat)).

(** The store's answers to the successive page requests, from round
    [bar_counter] and offset [offset] on: pages of exactly [limit] rows,
    closed by one page of another size. *)
Inductive answers (query endpoint : string)
  : nat → N → state → list (list row) → state → Prop :=
| answers_last bar_counter offset st rows st' :
    send_query (full_query_at query offset) endpoint (emit (progress bar_counter) st)
    = (Ok rows, st') →
    N.of_nat (length rows) ≠ limit →
    answers query endpoint bar_counter offset st [rows] st'
| answers_more bar_counter offset st rows st1 pages st' :
    send_query (full_query_at query offset) endpoint (emit (progress bar_counter) st)
    = (Ok rows, st1) →
    N.of_nat (length rows) = limit →
    answers query endpoint (S bar_counter) (offset + limit) st1 pages st' →
    answers query endpoint bar_counter offset st (rows :: pages) st'.

End WithNet.

(** Whether a character occurs in a text. *)
Fixpoint mentions (c : ascii) (s : string) : bool :=
  match s with
  | "" => false
  | String c' s' => bool_decide (c' = c) || mentions c s'
  end.

(** The row of a binding all of whose variables have a ["value"] member. *)
Definition binding_values (b : binding) : option row :=
  mapM (λ kv : string * option string, v ← kv.2; Some (kv.1, v)) b.

(** The position of the last use of [k] in a history of uses. *)
Fixpoint last_use (k : string) (history : list string) (pos : nat) : option nat :=
  match history with
  | [] => None
  | k' :: history' =>
      match last_use k history' (S pos) with
      | Some p => Some p
      | None => if decide (k = k') then Some pos else None
      end
  end.

Definition used_at (history : list string) (k : string) : nat :=
  default 0%nat (last_use k history 0).

(** [a] was last used before [b] was. *)
Definition older (history : list string) (a b : string) : Prop :=
  (used_at history a < used_at history b)%nat.

(** The keys of a cache fed by a history: at most [n] of them, no key
    twice, each one used in the history, from the least to the most
    recently used. *)
Definition recency (n : nat) (history keys : list string) : Prop :=
  (length keys ≤ n)%nat ∧ NoDup keys ∧ (∀ k, k ∈ keys → k ∈ history) ∧
  StronglySorted (older history) keys.

(** The queries of a history, each of them once, from the least to the most
    recently used ([remove_dups] keeps the last occurrence of each), and the
    [n] most recently used of them: all of them when they are [n] or
    fewer. *)
Definition recent (n : nat) (history : list string) : list string :=
  let distinct := remove_dups history in
  drop (length distinct - n) distinct.

End Query.

(** ** [cluster.py]: reading the [.uc] report of the clustering tool *)

Module Cluster.
Import Py.

(** The messages [analyze_uclust] hands to [utils.log_indexing], with the
    number each one prints. *)
Inductive log_entry :=
| LogParts (n : N)          (* 'parts: ' + str(total_parts) *)
| LogHits (n : N)           (* 'hits: ' + str(hits) *)
| LogAverage (x : float).   (* 'average hit identity: ' + str(total_identity / hits) *)

(** The three counters of [analyze_uclust]. *)
Record tally := Tally {
  total_parts : N;
  total_identity : float;
  hits : N;
}.

(** The conversion of an [int] to a [float] in [total_identity / hits];
    exact below 2^53. *)
Fixpoint float_of_positive (p : positive) : float :=
  match p with
  | xH => 1%float
  | xO p' => PrimFloat.mul 2%float (float_of_positive p')
  | xI p' => PrimFloat.add (PrimFloat.mul 2%float (float_of_positive p')) 1%float
  end.

Definition float_of_N (n : N) : float :=
  match n with
  | N0 => 0%float
  | Npos p => float_of_positive p
  end.

(** [record_type in ('H', 'S')] compares by value.  [line[0] is 'H'] and
    [line[0] is 'S'] compare object identity, and which one-character
    strings [str.split] shares with the literals of a module is a matter of
    the runtime.  On CPython 3.11 a field ["H"] that [str.split] returns is
    the object of the literal ['H'], and a field ["S"] is not the object of
    the literal ['S']: the first test holds exactly when the field equals
    ["H"], the second holds of no field. *)
Definition is_H (field : string) : bool := bool_decide (field = "H").
Definition is_S (field : string) : bool := false.

Section Analyze.
(** The builtin [float(s)]. *)
Variable float_of_str : string → result float.

(** The body of the loop of [analyze_uclust]. *)
Definition analyze_line (t : tally) (line : string) : result tally :=
  let line := split line in
  result_bind (index line 0) (λ record_type,
    if bool_decide (record_type = "H" ∨ record_type = "S") then
      let t := Tally (total_parts t + 1) (total_identity t) (hits t) in
      result_bind (index line 0) (λ line0,
        if is_H line0 then
          result_bind (index line 3) (λ field3,
            result_bind (float_of_str field3) (λ x,
              Ok (Tally (total_parts t) (PrimFloat.add (total_identity t) x)
                        (hits t + 1))))
        else Ok t)
    else Ok t).

(** [results] is the text [f.read()] returns for the report file. *)
Definition analyze_uclust (results : string) : result (list log_entry) :=
  result_bind (for_each analyze_line (splitlines results) (Tally 0 0%float 0))
    (λ t,
      Ok ([LogParts (total_parts t); LogHits (hits t)] ++
          (if (0 <? hits t)%N
           then [LogAverage (PrimFloat.div (total_identity t) (float_of_N (hits t)))]
           else []))%list).

End Analyze.

Definition uris_line (uris : gset string) (line : string) : result (gset string) :=
  let line := split line in
  result_bind (index line 0) (λ line0,
    if is_H line0 then
      result_bind (index line 9) (λ partURI, Ok (uris ∪ {[ partURI ]}))
    else Ok uris).

Definition uclust2uris (results : string) : result (gset string) :=
  for_each uris_line (splitlines results) ∅.

(** The first loop of [uclust2clusters]: cluster id to member parts, in the
    order the cluster ids first occur.  With [is_S] as above, the lines it
    takes a part from are the [H] lines. *)
Definition cluster_line (cluster2parts : dict (gset string)) (line : string)
  : result (dict (gset string)) :=
  let line := split line in
  result_bind (index line 0) (λ line0,
    if is_H line0 || is_S line0 then
      result_bind (index line 8) (λ part,
        result_bind (index line 1) (λ cluster,
          let cluster2parts :=
            if dict_mem cluster cluster2parts then cluster2parts
            else dict_set cluster ∅ cluster2parts in
          Ok (dict_set cluster
                (default ∅ (dict_get cluster cluster2parts) ∪ {[ part ]})
                cluster2parts)))
    else Ok cluster2parts).

Definition populate (results : string) : result (dict (gset string)) :=
  for_each cluster_line (splitlines results) [].

(** The second loop: every part of every cluster is given the rest of that
    cluster; a part met again in a later cluster is given the rest of the
    later one. *)
Definition transform (cluster2parts : dict (gset string)) : gmap string (gset string) :=
  foldl (λ clusters kv,
           foldl (λ clusters part, <[ part := kv.2 ∖ {[ part ]} ]> clusters)
                 clusters (elements kv.2))
        ∅ cluster2parts.

Definition uclust2clusters (results : string) : result (gmap string (gset string)) :=
  result_bind (populate results) (λ cluster2parts, Ok (transform cluster2parts)).

(** *** Vocabulary of the statements *)

(** The record type of a line, and its other fields. *)
Definition field (i : nat) (line : string) : option string := split line !! i.

Definition counted (line : string) : bool :=
  bool_decide (field 0 line = Some "H" ∨ field 0 line = Some "S").

Definition hit (line : string) : bool := bool_decide (field 0 line = Some "H").

(** A line [analyze_uclust] reads without an exception. *)
Definition analyzable (float_of_str : string → result float) (line : string) : Prop :=
  is_Some (field 0 line) ∧
  (hit line → ∃ s x, field 3 line = Some s ∧ float_of_str s = Ok x).

(** The identities of the hit lines, in the order of the report. *)
Definition hit_identities (float_of_str : string → result float)
    (lines : list string) : list float :=
  omap (λ line,
          if hit line then
            match field 3 line with
            | Some s => match float_of_str s with Ok x => Some x | Raised _ => None end
            | None => None
            end
          else None) lines.

(** The cluster and part of a line [uclust2clusters] takes a part from. *)
Definition membership (line : string) : option (string * string) :=
  if hit line then
    c ← field 1 line; p ← field 8 line; Some (c, p)
  else None.


(** A line [uclust2uris] reads without an exception, and the targets of the
    hit lines, in the order of the report. *)
Definition uris_readable (line : string) : Prop :=
  is_Some (field 0 line) ∧ (hit line → is_Some (field 9 line)).

Definition hit_targets (lines : list string) : list string :=
  omap (λ line, if hit line then field 9 line else None) lines.



(** How many lines of a report pass a test. *)
Definition count_lines (test : string → bool) (lines : list string) : N :=
  N.of_nat (length (List.filter test lines)).

(** The sum of the identities, added up in the order of the report. *)
Definition identity_sum (xs : list float) : float := foldl PrimFloat.add 0%float xs.

(** What the summary logs, said directly: how many lines count, how many
    of them are hits, and the mean identity of the hits if there is one. *)
Definition summary (float_of_str : string → result float) (lines : list string)
  : list log_entry :=
  let h := count_lines hit lines in
  ([LogParts (count_lines counted lines); LogHits h] ++
   (if (0 <? h)%N
    then [LogAverage (PrimFloat.div (identity_sum (hit_identities float_of_str lines))
                                     (float_of_N h))]
    else []))%list.

(** A builtin [float] for plain decimals [ddd] and [ddd.ddd]; it agrees with
    Python while the digits without the point stay below 2^53 and there are
    at most 22 digits after the point, where both roundings are exact. *)
Definition digit_value (c : ascii) : option N :=
  let n := code c in
  if ((48 <=? n) && (n <=? 57))%N then Some (n - 48)%N else None.

Fixpoint digits_value (s : string) (acc : N) : option N :=
  match s with
  | "" => Some acc
  | String c s' => d ← digit_value c; digits_value s' (acc * 10 + d)%N
  end.

Fixpoint split_point (s : string) : string * option string :=
  match s with
  | "" => ("", None)
  | String c s' =>
      if decide (c = "."%char) then ("", Some s')
      else let '(a, b) := split_point s' in (String c a, b)
  end.

Definition decimal_float (s : string) : result float :=
  let '(int_part, frac_part) := split_point s in
  let frac := default "" frac_part in
  if bool_decide (int_part = "" ∧ frac = "") then
    Raised (ValueError "could not convert string to float")
  else
    match digits_value (int_part +:+ frac) 0 with
    | Some m =>
        Ok (PrimFloat.div (float_of_N m)
                          (float_of_N (10 ^ N.of_nat (String.length frac))))
    | None => Raised (ValueError "could not convert string to float")
    end.

End Cluster.

(** ** [sequencesearch.py]: running the alignment tool on one sequence *)

Module SequenceSearch.
Import Py.

(** The two module-level dictionaries; they live as long as the process
    and every call of [sequence_search] works on them in place. *)
Record flag_sets := FlagSets {
  globalFlags : dict string;
  exactFlags : dict string;
}.

Definition initial_flags : flag_sets :=
  FlagSets [("maxaccepts", "50"); ("id", "0.8"); ("iddef", "2");
            ("maxrejects", "0"); ("maxseqlength", "5000"); ("minseqlength", "20")]
           [].

(** The chain of tests on [sys.platform]; on another platform the name
    stays unbound. *)
Definition vsearch_binary_filename (platform : string) : option string :=
  if bool_decide (platform = "linux" ∨ platform = "linux2")
  then Some "usearch/vsearch_linux"
  else if bool_decide (platform = "darwin")
  then Some "usearch/vsearch_macos"
  else None.

Inductive event :=
| Log (msg : string)              (* utils.log *)
| Popen (args : list string)      (* subprocess.Popen(args, ...) *)
| Print (output : string).        (* print(output) *)

(** The tool behind [subprocess.Popen]: from the argument list and the
    files it finds, its standard output and the files it leaves. *)
Class Tool := {
  popen : list string → gmap string string → result (string * gmap string string);
}.

Record state := State {
  platform : string;
  flags : flag_sets;
  files : gmap string string;
  trace : list event;
}.

Definition emit (ev : event) (st : state) : state :=
  State (platform st) (flags st) (files st) (trace st ++ [ev]).

(** The argument lists handed to [subprocess.Popen]. *)
Definition invocations (tr : list event) : list (list string) :=
  omap (λ ev, match ev with Popen args => Some args | _ => None end) tr.

Definition append_flags_to_args (argsList : list string) (flags : dict string)
  : list string :=
  foldl (λ (argsList : list string) flag,
           (argsList ++ ["--" +:+ flag] ++ [default "" (dict_get flag flags)])%list)
        argsList (dict_keys flags).

(** The loop shared, word for word, by [add_global_flags] and
    [add_exact_flags]: its body, then the loop over the caller's keys. *)
Definition override_step (userFlags defaults : dict string) (flag : string)
  : dict string :=
  if dict_mem flag defaults
  then dict_set flag (default "" (dict_get flag userFlags)) defaults
  else defaults.

Definition override_flags (userFlags defaults : dict string) : dict string :=
  foldl (override_step userFlags) defaults (dict_keys userFlags).

Definition add_global_flags (userFlags : dict string) (fs : flag_sets) : flag_sets :=
  FlagSets (override_flags userFlags (globalFlags fs)) (exactFlags fs).

Definition add_exact_flags (userFlags : dict string) (fs : flag_sets) : flag_sets :=
  FlagSets (globalFlags fs) (override_flags userFlags (exactFlags fs)).

Section WithTool.
Context `{Tool}.

Definition run_tool (args : list string) (st : state) : result unit * state :=
  let st := emit (Popen args) st in
  match popen args (files st) with
  | Raised e => (Raised e, st)
  | Ok (output, files') =>
      (Ok (), emit (Print output) (State (platform st) (flags st) files' (trace st)))
  end.

Definition run_vsearch_global (fileName : string) (st : state) : result unit * state :=
  match vsearch_binary_filename (platform st) with
  | None => (Raised (NameError "vsearch_binary_filename"), st)
  | Some binary =>
      let args := [binary; "--usearch_global"; fileName; "--db";
                   "usearch/sequences.fsa"; "--uc"; drop_last 4 fileName +:+ ".uc";
                   "--uc_allhits"] in
      let args := append_flags_to_args args (globalFlags (flags st)) in
      run_tool args st
  end.

Definition run_vsearch_exact (fileName : string) (st : state) : result unit * state :=
  match vsearch_binary_filename (platform st) with
  | None => (Raised (NameError "vsearch_binary_filename"), st)
  | Some binary =>
      let args := [binary; "--search_exact"; fileName; "--db";
                   "usearch/sequences.fsa"; "--uc"; drop_last 4 fileName +:+ ".uc";
                   "--uc_allhits"] in
      let args := append_flags_to_args args (exactFlags (flags st)) in
      run_tool args st
  end.

(** [cluster.uclust2uris(path)]: [open] fails on a missing file. *)
Definition read_uris (path : string) (st : state) : result (gset string) :=
  match files st !! path with
  | None => Raised (Exn "FileNotFoundError" path)
  | Some results => Cluster.uclust2uris results
  end.

Definition sequence_search (userFlags : dict string) (fileName : string) (st : state)
  : result (gset string) * state :=
  let st := emit (Log "Starting sequence search") st in
  let '(r, st) :=
    if dict_mem "search_exact" userFlags then
      let st := State (platform st) (add_exact_flags userFlags (flags st))
                      (files st) (trace st) in
      run_vsearch_exact fileName st
    else
      let st := State (platform st) (add_global_flags userFlags (flags st))
                      (files st) (trace st) in
      run_vsearch_global fileName st in
  match r with
  | Raised e => (Raised e, st)
  | Ok _ =>
      let st := emit (Log "Sequence search complete") st in
      (read_uris (drop_last 4 fileName +:+ ".uc") st, st)
  end.

(** A sequence of calls of [sequence_search] in one process. *)
Fixpoint run_searches (calls : list (dict string * string)) (st : state) : state :=
  match calls with
  | [] => st
  | (userFlags, fileName) :: calls' =>
      run_searches calls' (sequence_search userFlags fileName st).2
  end.

End WithTool.

(** The process as it starts: the flag sets as the module defines them. *)
Definition initial_state (platform : string) (files : gmap string string) : state :=
  State platform initial_flags files [].

(** *** Vocabulary of the statements *)

Definition exact_base_args (binary fileName : string) : list string :=
  [binary; "--search_exact"; fileName; "--db"; "usearch/sequences.fsa";
   "--uc"; drop_last 4 fileName +:+ ".uc"; "--uc_allhits"].

Definition global_base_args (binary fileName : string) : list string :=
  [binary; "--usearch_global"; fileName; "--db"; "usearch/sequences.fsa";
   "--uc"; drop_last 4 fileName +:+ ".uc"; "--uc_allhits"].

(** The argument list a call hands to the tool [binary]. *)
Definition search_args (binary : string) (userFlags : dict string)
    (fileName : string) (fs : flag_sets) : list string :=
  if dict_mem "search_exact" userFlags
  then append_flags_to_args (exact_base_args binary fileName)
         (exactFlags (add_exact_flags userFlags fs))
  else append_flags_to_args (global_base_args binary fileName)
         (globalFlags (add_global_flags userFlags fs)).

(** The arguments a flag set contributes: [--name value] for each item. *)
Definition flag_args (fl : dict string) : list string :=
  concat ((λ kv : string * string, ["--" +:+ kv.1; kv.2]) <$> fl).

Definition default_flag_names : list string :=
  ["maxaccepts"; "id"; "iddef"; "maxrejects"; "maxseqlength"; "minseqlength"].

(** The value a call uses for a flag of the global set: the caller's if the
    caller names the flag, else the one the set holds when the call starts. *)
Definition effective (userFlags before : dict string) (name : string) : string :=
  default (default "" (dict_get name before)) (dict_get name userFlags).

(** What holds of the flag sets throughout the life of a process. *)
Definition flags_invariant (fs : flag_sets) : Prop :=
  exactFlags fs = [] ∧ dict_keys (globalFlags fs) = default_flag_names.

End SequenceSearch.

(** ** [explorer.py]: the [/cron] route of the gateway *)

Module Explorer.
Import Py.

Inductive method := GET | POST.

(** [request.method] and [request.get_json()] for a flat body. *)
Record request := Request {
  req_method : method;
  req_json : option (dict string);
}.

Inductive body :=
| Text (s : string)               (* a handler returning a [str] *)
| Json (members : dict string).   (* jsonify(...) *)

Record http_response := HttpResponse {
  status : Z;
  content : body;
}.

Inductive event :=
| Log (msg : string)       (* utils.log(msg) *)
| LogError (e : exn).      (* the line [handle_error] logs for [e] *)

(** Modelled from the spec: the state store behind [utils.get_cron] and
    [utils.set_cron], which the repository keeps in [utils.py]: a single
    persisted schedule string ("persists the schedule string used to trigger
    periodic full updates"). *)
Record state := State {
  cron : string;
  trace : list event;
}.

Definition utils_get_cron (st : state) : string := cron st.
Definition utils_set_cron (c : string) (st : state) : state := State c (trace st).
Definition utils_log (msg : string) (st : state) : state :=
  State (cron st) (trace st ++ [Log msg]).

(** The names [explorer.py] binds at module level: its imports, its two
    assignments and its functions. *)
Definition explorer_globals : list string :=
  ["traceback"; "Flask"; "request"; "jsonify"; "logging"; "cluster";
   "pagerank"; "index"; "search"; "utils"; "query"; "sequencesearch";
   "requests"; "log"; "app"; "startup"; "handle_error"; "info"; "config";
   "update"; "incremental_update"; "incremental_remove";
   "incremental_remove_collection"; "sparql_search_endpoint";
   "search_by_string"; "sequence_search"; "update_cron_tab"].

(** Looking up a global name that is no builtin. *)
Definition load_global (name : string) : result unit :=
  if bool_decide (name ∈ explorer_globals) then Ok () else Raised (NameError name).

(** The handler of [/cron].  For [GET] it calls the bare name [get_cron]
    twice; past the lookup the call is taken to read the stored schedule. *)
Definition update_cron_tab (req : request) (st : state) : result string * state :=
  match req_method req with
  | GET =>
      match load_global "get_cron" with
      | Raised e => (Raised e, st)
      | Ok _ =>
          let st := utils_log ("Crontab currently set to: " +:+ utils_get_cron st) st in
          match load_global "get_cron" with
          | Raised e => (Raised e, st)
          | Ok _ => (Ok (utils_get_cron st), st)
          end
      end
  | POST =>
      match req_json req with
      | None => (Raised (Exn "TypeError" "'NoneType' object is not subscriptable"), st)
      | Some params =>
          match dict_get "cron" params with
          | None => (Raised (KeyError "cron"), st)
          | Some c => (Ok "Updated cron file.", utils_set_cron c st)
          end
      end
  end.

(** [@app.errorhandler(Exception)] *)
Definition handle_error (e : exn) (st : state) : http_response * state :=
  (HttpResponse 500 (Json [("error", exn_msg e)]),
   State (cron st) (trace st ++ [LogError e])).

(** A request served by the [/cron] route: the handler, with
    [handle_error] around it. *)
Definition serve_cron (req : request) (st : state) : http_response * state :=
  match update_cron_tab req st with
  | (Ok s, st') => (HttpResponse 200 (Text s), st')
  | (Raised e, st') => handle_error e st'
  end.

(** A sequence of requests to the [/cron] route, served one after the
    other. *)
Fixpoint serve_crons (reqs : list request) (st : state)
  : list http_response * state :=
  match reqs with
  | [] => ([], st)
  | req :: reqs' =>
      let '(resp, st) := serve_cron req st in
      let '(resps, st) := serve_crons reqs' st in
      (resp :: resps, st)
  end.

(** *** Vocabulary of the statements *)

(** The schedule a request posts, if it posts one, and the schedule the
    requests of a sequence leave behind. *)
Definition posted_cron (req : request) : option string :=
  match req_method req with
  | POST => params ← req_json req; dict_get "cron" params
  | GET => None
  end.

Definition last_posted (reqs : list request) (init : string) : string :=
  foldl (λ c req, default c (posted_cron req)) init reqs.

End Explorer.

(** ** Test doubles: a network and a tool for the worked examples *)

Module Doubles.
Import Py.

(** A tool that prints nothing and writes an empty report to the path
    after [--uc]. *)
Fixpoint uc_path (args : list string) : option string :=
  match args with
  | a :: args' => if decide (a = "--uc") then head args' else uc_path args'
  | [] => None
  end.

Definition silent_tool : SequenceSearch.Tool :=
  {| SequenceSearch.popen := λ args files,
       Ok ("", match uc_path args with
               | Some p => <[ p := "" ]> files
               | None => files
               end) |}.

(** A tool that prints nothing and writes a given report to the path after
    [--uc]. *)
Definition reporting_tool (report : string) : SequenceSearch.Tool :=
  {| SequenceSearch.popen := λ args files,
       Ok ("", match uc_path args with
               | Some p => <[ p := report ]> files
               | None => files
               end) |}.

Definition plain_urlencode (params : list (string * string)) : string :=
  join "&" ((λ kv : string * string, kv.1 +:+ "=" +:+ kv.2) <$> params).

(** A document of [n] bindings of the variable [subject]. *)
Definition page_of (n : N) : Query.response :=
  Query.Response 200 ""
    (Ok (replicate (N.to_nat n) [("subject", Some "http://example.org/part")])).

(** A store that answers by the number of requests it has seen. *)
Definition scripted_store (script : nat → result Query.response)
    (peers : list Query.instance) : Query.Net :=
  {| Query.world := nat;
     Query.requests_get := λ _ n, (script n, S n);
     Query.get_wor := λ n, (Ok peers, n);
     Query.urlencode := plain_urlencode |}.

(** A store that answers by the address requested. *)
Definition routed_store (route : string → result Query.response)
    (peers : list Query.instance) : Query.Net :=
  {| Query.world := unit;
     Query.requests_get := λ url w, (route url, w);
     Query.get_wor := λ w, (Ok peers, w);
     Query.urlencode := plain_urlencode |}.

(** Three rows, the first two differing in the order of their keys. *)
Definition rows_with_duplicate : list Query.row :=
  [[("subject", "http://example.org/a"); ("name", "gfp")];
   [("name", "gfp"); ("subject", "http://example.org/a")];
   [("subject", "http://example.org/b")]].

(** Two full pages, then a page of 42 rows. *)
Definition three_pages (k : nat) : result Query.response :=
  match k with
  | 0%nat | 1%nat => Ok (page_of 10000)
  | _ => Ok (page_of 42)
  end.

(** A page of 10001 rows, whatever is asked. *)
Definition oversized (k : nat) : result Query.response := Ok (page_of 10001).

(** Forty queries, no two the same. *)
Definition forty_queries : list string :=
  (λ i : nat, "SELECT ?s WHERE { ?s ?p " +:+ pretty i +:+ " } ") <$> seq 0 40.

(** No rows, whatever is asked. *)
Definition no_rows (k : nat) : result Query.response := Ok (page_of 0).

(** The second peer answers 503, everyone else one row. *)
Definition second_peer_down (url : string) : result Query.response :=
  if String.prefix "http://peer2.example/sparql?" url
  then Ok (Query.Response 503 "Service Unavailable" (Raised JSONDecodeError))
  else Ok (page_of 1).

Definition two_peers : list Query.instance :=
  [Query.Instance "http://peer1.example"; Query.Instance "http://peer2.example"].

Definition local_config : Query.config :=
  Query.Config "http://localhost:8890/sparql?" false.

Definition federated_config : Query.config :=
  Query.Config "http://localhost:8890/sparql?" true.

(** A report is its lines, each closed by a line feed. *)
Definition unlines (ls : list string) : string :=
  String.concat "" ((λ l, l +:+ String LF "") <$> ls).

(** One seed and one hit in cluster 0. *)
Definition two_part_report : string :=
  unlines ["S 0 120 * * * * * p1 *";
           "H 0 118 97.5 + 0 0 118M2I p2 p1";
           "C 0 2 * * * * * p1 *"].

(** Two hits of identity 90.0 and 80.0, and one seed. *)
Definition three_part_report : string :=
  unlines ["S 0 120 * * * * * p1 *";
           "H 0 118 90.0 + 0 0 118M p2 p1";
           "H 0 117 80.0 + 0 0 117M p3 p1"].

(** One row, the same one, whoever is asked. *)
Definition one_row (url : string) : result Query.response := Ok (page_of 1).

(** A report with an empty line between its two records. *)
Definition blank_line_report : string :=
  unlines ["S 0 120 * * * * * p1 *";
           "";
           "H 0 118 97.5 + 0 0 118M2I p2 p1"].

End Doubles.

(* ===================================================================== *)
(** * Part II: lemmas and theorems                                        *)
(* ===================================================================== *)

(** ** Dictionaries *)

Section DictFacts.
Import Py.
Context {V : Type}.
Implicit Types (d : dict V) (k : string) (v : V).

Lemma dict_get_None k d : dict_get k d = None ↔ k ∉ dict_keys d.
Proof.
  unfold dict_keys. induction d as [|[k' v'] d IH]; simpl.
  - split; [intros _; apply not_elem_of_nil | done].
  - destruct (decide (k = k')) as [->|Hne].
    + split; [done | intros Hn; destruct Hn; left].
    + rewrite IH, not_elem_of_cons. tauto.
Qed.

Lemma dict_get_Some_mem k d v : dict_get k d = Some v → k ∈ dict_keys d.
Proof.
  intros Hg. destruct (decide (k ∈ dict_keys d)) as [|Hn]; [done|].
  apply dict_get_None in Hn. congruence.
Qed.

Lemma dict_mem_true k d : dict_mem k d = true ↔ k ∈ dict_keys d.
Proof. unfold dict_mem. apply bool_decide_eq_true. Qed.

Lemma dict_mem_false k d : dict_mem k d = false ↔ k ∉ dict_keys d.
Proof. unfold dict_mem. apply bool_decide_eq_false. Qed.

Lemma dict_get_set_eq k v d : dict_get k (dict_set k v d) = Some v.
Proof.
  induction d as [|[k' v'] d IH]; simpl.
  - by rewrite decide_True.
  - destruct (decide (k = k')) as [->|Hne]; simpl.
    + by rewrite decide_True.
    + by rewrite decide_False.
Qed.

Lemma dict_get_set_ne k k' v d : k ≠ k' → dict_get k' (dict_set k v d) = dict_get k' d.
Proof.
  intros Hne. induction d as [|[k0 v0] d IH]; simpl.
  - by rewrite decide_False.
  - destruct (decide (k = k0)) as [->|Hne0]; simpl.
    + by rewrite !decide_False.
    + by rewrite IH.
Qed.

Lemma dict_keys_set_mem k v d : k ∈ dict_keys d → dict_keys (dict_set k v d) = dict_keys d.
Proof.
  unfold dict_keys. induction d as [|[k' v'] d IH]; simpl.
  - intros Hin. by apply elem_of_nil in Hin.
  - intros Hin. destruct (decide (k = k')) as [->|Hne]; simpl; [done|].
    f_equal. apply IH. apply elem_of_cons in Hin as [?|?]; [done|done].
Qed.

Lemma dict_keys_set_new k v d :
  k ∉ dict_keys d → dict_keys (dict_set k v d) = (dict_keys d ++ [k])%list.
Proof.
  unfold dict_keys. induction d as [|[k' v'] d IH]; simpl; [done|].
  intros Hn. apply not_elem_of_cons in Hn as [Hne Hn].
  rewrite decide_False by done. simpl. f_equal. by apply IH.
Qed.

Lemma dict_set_new k v d : k ∉ dict_keys d → dict_set k v d = (d ++ [(k, v)])%list.
Proof.
  unfold dict_keys. induction d as [|[k' v'] d IH]; simpl; [done|].
  intros Hn. apply not_elem_of_cons in Hn as [Hne Hn].
  rewrite decide_False by done. f_equal. by apply IH.
Qed.

(** On a well-formed dictionary, looking a key up finds its item. *)
Lemma dict_get_elem_of k v d : dict_wf d → (k, v) ∈ d → dict_get k d = Some v.
Proof.
  unfold dict_wf, dict_keys. induction d as [|[k' v'] d IH]; simpl.
  - intros _ Hin. by apply elem_of_nil in Hin.
  - intros Hnd Hin. apply NoDup_cons in Hnd as [Hfresh Hnd].
    apply elem_of_cons in Hin as [Heq|Hin].
    + inversion Heq; subst. by rewrite decide_True.
    + destruct (decide (k = k')) as [->|Hne]; [|by apply IH].
      destruct Hfresh. apply list_elem_of_fmap. by exists (k', v).
Qed.


End DictFacts.

(** ** [sequencesearch.py] *)

Section SequenceSearchFacts.
Import Py SequenceSearch.

Implicit Types (d u : dict string) (k : string).

Lemma override_flags_unfold u d :
  override_flags u d = foldl (override_step u) d (dict_keys u).
Proof. reflexivity. Qed.

Lemma override_step_keys u d k : dict_keys (override_step u d k) = dict_keys d.
Proof.
  unfold override_step. destruct (dict_mem k d) eqn:Hm; [|done].
  apply dict_keys_set_mem. by apply dict_mem_true.
Qed.

Lemma override_loop_keys u ks d : dict_keys (foldl (override_step u) d ks) = dict_keys d.
Proof.
  revert d. induction ks as [|k ks IH]; intros d; simpl; [done|].
  by rewrite IH, override_step_keys.
Qed.

Lemma override_step_get_ne u d k k' :
  k ≠ k' → dict_get k' (override_step u d k) = dict_get k' d.
Proof.
  intros Hne. unfold override_step. destruct (dict_mem k d); [|done].
  by apply dict_get_set_ne.
Qed.

Lemma override_loop_get_other u ks d k :
  k ∉ ks → dict_get k (foldl (override_step u) d ks) = dict_get k d.
Proof.
  revert d. induction ks as [|k0 ks IH]; intros d Hn; simpl; [done|].
  apply not_elem_of_cons in Hn as [Hne Hn].
  rewrite IH by done. by apply override_step_get_ne.
Qed.

Lemma override_loop_get_user u ks d k :
  k ∈ ks → k ∈ dict_keys d →
  dict_get k (foldl (override_step u) d ks) = Some (default "" (dict_get k u)).
Proof.
  revert d. induction ks as [|k0 ks IH]; intros d Hin Hd; simpl.
  - by apply elem_of_nil in Hin.
  - destruct (decide (k ∈ ks)) as [Hks|Hks].
    + apply IH; [done|]. by rewrite override_step_keys.
    + apply elem_of_cons in Hin as [->|?]; [|done].
      rewrite override_loop_get_other by done.
      unfold override_step. apply dict_mem_true in Hd. rewrite Hd.
      apply dict_get_set_eq.
Qed.

Lemma override_loop_absent u ks d :
  (∀ k, k ∈ ks → k ∉ dict_keys d) → foldl (override_step u) d ks = d.
Proof.
  revert d. induction ks as [|k0 ks IH]; intros d Hks; simpl; [done|].
  assert (override_step u d k0 = d) as ->.
  { unfold override_step.
    assert (dict_mem k0 d = false) as ->; [|done].
    apply dict_mem_false, Hks. left. }
  apply IH. intros k Hk. apply Hks. by right.
Qed.

Lemma override_flags_keys u d : dict_keys (override_flags u d) = dict_keys d.
Proof. rewrite override_flags_unfold. apply override_loop_keys. Qed.

Lemma override_flags_get_other u d k :
  k ∉ dict_keys u → dict_get k (override_flags u d) = dict_get k d.
Proof. rewrite override_flags_unfold. apply override_loop_get_other. Qed.

Lemma override_flags_get_user u d k v :
  dict_get k u = Some v → k ∈ dict_keys d → dict_get k (override_flags u d) = Some v.
Proof.
  intros Hu Hd. rewrite override_flags_unfold.
  rewrite (override_loop_get_user u (dict_keys u) d k); [by rewrite Hu| |done].
  by eapply dict_get_Some_mem.
Qed.

Lemma override_flags_not_inserted u d k :
  k ∉ dict_keys d → dict_get k (override_flags u d) = None.
Proof. intros Hn. apply dict_get_None. by rewrite override_flags_keys. Qed.

Lemma override_flags_absent u d :
  (∀ k, k ∈ dict_keys u → k ∉ dict_keys d) → override_flags u d = d.
Proof. rewrite override_flags_unfold. apply override_loop_absent. Qed.

Lemma override_flags_nil u : override_flags u [] = [].
Proof. apply override_flags_absent. intros k _. apply not_elem_of_nil. Qed.

(** C8: merging a caller's flag map into the global or the exact default
    set keeps the key set of the default set (in its order), inserts no key,
    leaves the value of every key the caller did not name as it was, gives
    a key of the default set the caller named the caller's value, leaves
    the other default set alone, and changes nothing at all when none of the
    caller's keys is in the default set. *)
Theorem add_flags_only_existing_keys (userFlags : dict string) (fs : flag_sets) :
  let g := add_global_flags userFlags fs in
  let e := add_exact_flags userFlags fs in
  (dict_keys (globalFlags g) = dict_keys (globalFlags fs) ∧
   dict_keys (exactFlags e) = dict_keys (exactFlags fs)) ∧
  (exactFlags g = exactFlags fs ∧ globalFlags e = globalFlags fs) ∧
  (∀ k, k ∉ dict_keys (globalFlags fs) → dict_get k (globalFlags g) = None) ∧
  (∀ k, k ∉ dict_keys (exactFlags fs) → dict_get k (exactFlags e) = None) ∧
  (∀ k, k ∉ dict_keys userFlags →
        dict_get k (globalFlags g) = dict_get k (globalFlags fs) ∧
        dict_get k (exactFlags e) = dict_get k (exactFlags fs)) ∧
  (∀ k v, dict_get k userFlags = Some v →
        (k ∈ dict_keys (globalFlags fs) → dict_get k (globalFlags g) = Some v) ∧
        (k ∈ dict_keys (exactFlags fs) → dict_get k (exactFlags e) = Some v)) ∧
  ((∀ k, k ∈ dict_keys userFlags → k ∉ dict_keys (globalFlags fs)) → g = fs) ∧
  ((∀ k, k ∈ dict_keys userFlags → k ∉ dict_keys (exactFlags fs)) → e = fs).
Proof.
  destruct fs as [gf ef]. simpl.
  repeat split.
  - apply override_flags_keys.
  - apply override_flags_keys.
  - apply override_flags_not_inserted.
  - apply override_flags_not_inserted.
  - by apply override_flags_get_other.
  - by apply override_flags_get_other.
  - by apply override_flags_get_user.
  - by apply override_flags_get_user.
  - intros Hn. unfold add_global_flags. simpl. by rewrite override_flags_absent.
  - intros Hn. unfold add_exact_flags. simpl. by rewrite override_flags_absent.
Qed.

(** An override for a key outside the global set leaves the defaults of the
    module as they are. *)
Lemma add_flags_only_existing_keys_witness :
  add_global_flags [("threads", "8")] initial_flags = initial_flags.
Proof.
  apply (add_flags_only_existing_keys [("threads", "8")] initial_flags).
  intros k Hk. apply list_elem_of_singleton in Hk as ->.
  apply (proj1 (dict_mem_false _ _)). reflexivity.
Defined.

Lemma append_flags_to_args_nil (args : list string) : append_flags_to_args args [] = args.
Proof. reflexivity. Qed.

Lemma append_flags_loop (fl l : dict string) (args : list string) :
  (∀ k v, (k, v) ∈ l → dict_get k fl = Some v) →
  foldl (λ (argsList : list string) flag,
           (argsList ++ ["--" +:+ flag] ++ [default "" (dict_get flag fl)])%list)
        args (dict_keys l)
  = (args ++ flag_args l)%list.
Proof.
  revert args. induction l as [|[k v] l IH]; intros args Hl; simpl.
  - by rewrite app_nil_r.
  - rewrite IH by (intros; apply Hl; by right).
    rewrite (Hl k v) by left. simpl.
    unfold flag_args. simpl. by rewrite <- !app_assoc.
Qed.

Lemma append_flags_to_args_wf (args : list string) (fl : dict string) :
  dict_wf fl → append_flags_to_args args fl = (args ++ flag_args fl)%list.
Proof.
  intros Hwf. apply append_flags_loop. intros k v Hin. by apply dict_get_elem_of.
Qed.

(** A well-formed dictionary is its keys paired with their values. *)
Lemma dict_items_of_keys (d : dict string) :
  dict_wf d → d = (λ k, (k, default "" (dict_get k d))) <$> dict_keys d.
Proof.
  intros Hwf. unfold dict_keys. rewrite <- list_fmap_compose.
  rewrite <- (list_fmap_id d) at 1.
  apply list_fmap_ext. intros i [k v] Hi. simpl.
  rewrite (dict_get_elem_of k v d); [done|done|].
  by eapply list_elem_of_lookup_2.
Qed.

Section WithTool.
Context `{Tool}.

Lemma invocations_app (tr1 tr2 : list event) :
  invocations (tr1 ++ tr2) = (invocations tr1 ++ invocations tr2)%list.
Proof. unfold invocations. apply omap_app. Qed.

(** What one call leaves behind. *)
Lemma sequence_search_state (u : dict string) (fileName : string) (st : state) :
  let st' := (sequence_search u fileName st).2 in
  platform st' = platform st ∧
  flags st' = (if dict_mem "search_exact" u then add_exact_flags u (flags st)
               else add_global_flags u (flags st)) ∧
  invocations (trace st') =
    (invocations (trace st) ++
     match vsearch_binary_filename (platform st) with
     | None => []
     | Some binary =>
         [if dict_mem "search_exact" u
          then append_flags_to_args (exact_base_args binary fileName)
                 (exactFlags (add_exact_flags u (flags st)))
          else append_flags_to_args (global_base_args binary fileName)
                 (globalFlags (add_global_flags u (flags st)))]
     end)%list.
Proof.
  unfold sequence_search, run_vsearch_exact, run_vsearch_global, run_tool, emit.
  simpl.
  destruct (dict_mem "search_exact" u); simpl;
    destruct (vsearch_binary_filename (platform st)) as [binary|]; simpl;
    try (destruct (popen _ _) as [[output files']|e]; simpl);
    rewrite ?invocations_app; simpl; rewrite ?app_nil_r;
    repeat split; try done; by rewrite <- ?app_assoc.
Qed.

Lemma flags_invariant_initial : flags_invariant initial_flags.
Proof. by split. Qed.

Lemma flags_invariant_step (u : dict string) (fileName : string) (st : state) :
  flags_invariant (flags st) → flags_invariant (flags (sequence_search u fileName st).2).
Proof.
  intros [He Hg].
  destruct (sequence_search_state u fileName st) as (_ & -> & _).
  destruct (dict_mem "search_exact" u); split; simpl.
  - rewrite He. apply override_flags_nil.
  - done.
  - done.
  - by rewrite override_flags_keys.
Qed.

Lemma run_searches_invariant (calls : list (dict string * string)) (st : state) :
  flags_invariant (flags st) →
  flags_invariant (flags (run_searches calls st)) ∧
  platform (run_searches calls st) = platform st.
Proof.
  revert st. induction calls as [|[u fileName] calls IH]; intros st Hinv; simpl; [done|].
  destruct (IH (sequence_search u fileName st).2) as [Hf Hp].
  { by apply flags_invariant_step. }
  split; [done|]. rewrite Hp.
  by destruct (sequence_search_state u fileName st) as (-> & _).
Qed.

(** The invocation of a call in exact mode, in a process that has served
    any calls before. *)
Lemma exact_invocation (calls : list (dict string * string))
    (p : string) (files0 : gmap string string)
    (u : dict string) (fileName binary : string) :
  vsearch_binary_filename p = Some binary →
  dict_mem "search_exact" u = true →
  let st := run_searches calls (initial_state p files0) in
  invocations (trace (sequence_search u fileName st).2)
  = (invocations (trace st) ++ [exact_base_args binary fileName])%list.
Proof.
  intros Hb Hm st.
  destruct (run_searches_invariant calls (initial_state p files0)
              flags_invariant_initial) as [[He _] Hp].
  destruct (sequence_search_state u fileName st) as (_ & _ & ->).
  fold st in He, Hp. rewrite Hp. simpl. rewrite Hb, Hm. simpl.
  rewrite He. by rewrite override_flags_nil.
Qed.

(** The invocation of a call in global mode. *)
Lemma global_invocation (calls : list (dict string * string))
    (p : string) (files0 : gmap string string)
    (u : dict string) (fileName binary : string) :
  vsearch_binary_filename p = Some binary →
  dict_mem "search_exact" u = false →
  let st := run_searches calls (initial_state p files0) in
  let pick := effective u (globalFlags (flags st)) in
  invocations (trace (sequence_search u fileName st).2)
  = (invocations (trace st) ++
     [global_base_args binary fileName ++
      ["--maxaccepts"; pick "maxaccepts"; "--id"; pick "id";
       "--iddef"; pick "iddef"; "--maxrejects"; pick "maxrejects";
       "--maxseqlength"; pick "maxseqlength";
       "--minseqlength"; pick "minseqlength"]])%list.
Proof.
  intros Hb Hm st pick.
  destruct (run_searches_invariant calls (initial_state p files0)
              flags_invariant_initial) as [[_ Hg] Hp].
  destruct (sequence_search_state u fileName st) as (_ & _ & ->).
  fold st in Hg, Hp. rewrite Hp. simpl. rewrite Hb, Hm. simpl.
  do 2 f_equal.
  set (gf := override_flags u (globalFlags (flags st))).
  assert (dict_keys gf = default_flag_names) as Hk.
  { unfold gf. by rewrite override_flags_keys. }
  assert (dict_wf gf) as Hwf.
  { unfold dict_wf. rewrite Hk. apply (bool_decide_unpack _). by vm_compute. }
  rewrite append_flags_to_args_wf by done. f_equal.
  rewrite (dict_items_of_keys gf Hwf), Hk.
  assert (∀ k, k ∈ default_flag_names → default "" (dict_get k gf) = pick k) as Hpick.
  { intros k Hk'. unfold pick, effective, gf.
    destruct (dict_get k u) as [v|] eqn:Hu; simpl.
    - rewrite (override_flags_get_user u _ k v); [done|done|]. by rewrite Hg.
    - rewrite override_flags_get_other; [done|]. by apply dict_get_None. }
  unfold flag_args, default_flag_names. simpl.
  rewrite !Hpick by (unfold default_flag_names; set_solver).
  done.
Qed.

(** C10: in exact mode the caller's flags never reach the tool.  In a
    process that has served any sequence of searches, on a platform with a
    tool binary, a call whose flag map has the key [search_exact] leaves the
    exact flag set empty and starts the tool once, with exactly the base
    arguments: binary, [--search_exact], query file, [--db], corpus, [--uc],
    report path, [--uc_allhits]. *)
Theorem exact_search_ignores_caller_flags
    (calls : list (dict string * string)) (p : string)
    (files0 : gmap string string) (userFlags : dict string)
    (fileName binary : string) :
  vsearch_binary_filename p = Some binary →
  dict_mem "search_exact" userFlags = true →
  let st := run_searches calls (initial_state p files0) in
  let st' := (sequence_search userFlags fileName st).2 in
  exactFlags (flags st') = [] ∧
  invocations (trace st')
  = (invocations (trace st) ++
     [[binary; "--search_exact"; fileName; "--db"; "usearch/sequences.fsa";
       "--uc"; drop_last 4 fileName +:+ ".uc"; "--uc_allhits"]])%list.
Proof.
  intros Hb Hm st st'. split.
  - destruct (run_searches_invariant ((userFlags, fileName) :: nil)
                st) as [[He _] _]; [|done].
    by destruct (run_searches_invariant calls (initial_state p files0)
                   flags_invariant_initial) as [? _].
  - by apply exact_invocation.
Qed.

(** C7 (amended): on a platform with a tool binary, in a process that has
    served any sequence of searches, a call starts the tool once: in exact
    mode if its flag map has the key [search_exact] (whatever the value),
    in global mode otherwise.  In global mode each of the six flags, and so
    [maxaccepts], carries the caller's value if the caller names the flag,
    else the value the process-wide set holds at that moment, which is [50]
    for the first call of the process. *)
Theorem sequence_search_mode_selection
    (calls : list (dict string * string)) (p : string)
    (files0 : gmap string string) (userFlags : dict string)
    (fileName binary : string) :
  vsearch_binary_filename p = Some binary →
  let st := run_searches calls (initial_state p files0) in
  let st' := (sequence_search userFlags fileName st).2 in
  let pick := effective userFlags (globalFlags (flags st)) in
  invocations (trace st')
  = (invocations (trace st) ++
     [if dict_mem "search_exact" userFlags
      then exact_base_args binary fileName
      else (global_base_args binary fileName ++
            ["--maxaccepts"; pick "maxaccepts"; "--id"; pick "id";
             "--iddef"; pick "iddef"; "--maxrejects"; pick "maxrejects";
             "--maxseqlength"; pick "maxseqlength";
             "--minseqlength"; pick "minseqlength"])%list])%list
  ∧ (calls = [] →
     pick "maxaccepts" = default "50" (dict_get "maxaccepts" userFlags)).
Proof.
  intros Hb st st' pick. split.
  - destruct (dict_mem "search_exact" userFlags) eqn:Hm.
    + by apply exact_invocation.
    + by apply global_invocation.
  - intros ->. reflexivity.
Qed.

End WithTool.

(** A call in exact mode that also names [maxaccepts] and [id], after a
    call in global mode. *)
Lemma exact_search_ignores_caller_flags_witness :
  let st := @run_searches Doubles.silent_tool
              [([("maxaccepts", "0")], "/tmp/a.fsa")] (initial_state "linux" ∅) in
  let st' := (@sequence_search Doubles.silent_tool
                [("search_exact", "true"); ("maxaccepts", "7"); ("id", "0.5")]
                "/tmp/q.fsa" st).2 in
  exactFlags (flags st') = [] ∧
  invocations (trace st')
  = (invocations (trace st) ++
     [["usearch/vsearch_linux"; "--search_exact"; "/tmp/q.fsa"; "--db";
       "usearch/sequences.fsa"; "--uc"; drop_last 4 "/tmp/q.fsa" +:+ ".uc";
       "--uc_allhits"]])%list.
Proof.
  apply (@exact_search_ignores_caller_flags Doubles.silent_tool);
    reflexivity.
Defined.

(** The first call of a process, in global mode, without [maxaccepts]. *)
Lemma sequence_search_mode_selection_witness :
  invocations (trace (@sequence_search Doubles.silent_tool
                        [("id", "0.9")] "/tmp/q.fsa" (initial_state "darwin" ∅)).2)
  = [["usearch/vsearch_macos"; "--usearch_global"; "/tmp/q.fsa"; "--db";
      "usearch/sequences.fsa"; "--uc"; "/tmp/q.uc"; "--uc_allhits";
      "--maxaccepts"; "50"; "--id"; "0.9"; "--iddef"; "2"; "--maxrejects"; "0";
      "--maxseqlength"; "5000"; "--minseqlength"; "20"]].
Proof.
  apply (proj1 (@sequence_search_mode_selection Doubles.silent_tool
                  [] "darwin" ∅ [("id", "0.9")] "/tmp/q.fsa"
                  "usearch/vsearch_macos" eq_refl)).
Defined.

(** C7 as stated fails: after a call that set [maxaccepts] to [0], a call
    in global mode whose flag map is empty runs the tool with
    [--maxaccepts 0], not [50]. *)
Lemma maxaccepts_override_persists :
  let st := @run_searches Doubles.silent_tool
              [([("maxaccepts", "0")], "/tmp/a.fsa")] (initial_state "linux" ∅) in
  let userFlags : dict string := [] in
  dict_mem "search_exact" userFlags = false ∧
  dict_mem "maxaccepts" userFlags = false ∧
  last (invocations (trace (@sequence_search Doubles.silent_tool
                              userFlags "/tmp/b.fsa" st).2))
  = Some ["usearch/vsearch_linux"; "--usearch_global"; "/tmp/b.fsa"; "--db";
          "usearch/sequences.fsa"; "--uc"; "/tmp/b.uc"; "--uc_allhits";
          "--maxaccepts"; "0"; "--id"; "0.8"; "--iddef"; "2"; "--maxrejects"; "0";
          "--maxseqlength"; "5000"; "--minseqlength"; "20"].
Proof. repeat split. Qed.

End SequenceSearchFacts.

(** ** [explorer.py] *)

Section ExplorerFacts.
Import Py Explorer.

(** The module binds no name [get_cron]; the schedule getter is only
    reachable as an attribute of [utils]. *)
Lemma get_cron_unbound : load_global "get_cron" = Raised (NameError "get_cron").
Proof. reflexivity. Qed.

(** The sibling path: [POST] goes through [utils.set_cron] and answers 200. *)
Lemma cron_post_succeeds (c : string) (st : state) :
  serve_cron (Request POST (Some [("cron", c)])) st
  = (HttpResponse 200 (Text "Updated cron file."), State c (trace st)).
Proof. reflexivity. Qed.

(** C9 (the code departs from it): every [GET] on [/cron], whatever the
    stored schedule, ends in the error handler: the answer is status 500
    with the JSON body of the [NameError], the schedule string is not
    returned, and the state store is left as it was. *)
Theorem cron_get_answers_500 (json : option (dict string)) (st : state) :
  serve_cron (Request GET json) st
  = (HttpResponse 500 (Json [("error", "name 'get_cron' is not defined")]),
     State (cron st) (trace st ++ [LogError (NameError "get_cron")])).
Proof. reflexivity. Qed.

End ExplorerFacts.

(** ** [cluster.py] *)

Section ClusterFacts.
Import Py Cluster.

Lemma index_Ok {A} (xs : list A) (i : nat) (x : A) :
  index xs i = Ok x ↔ xs !! i = Some x.
Proof.
  unfold index. destruct (xs !! i); split; intros Heq;
    inversion Heq; by subst.
Qed.

Lemma index_lookup {A} (xs : list A) (i : nat) (x : A) :
  xs !! i = Some x → index xs i = Ok x.
Proof. apply index_Ok. Qed.

Lemma index_Raised {A} (xs : list A) (i : nat) :
  xs !! i = None → index xs i = Raised IndexError.
Proof. unfold index. by intros ->. Qed.

Lemma for_each_app {A S} (body : S → A → result S) (xs ys : list A) (s : S) :
  for_each body (xs ++ ys) s = result_bind (for_each body xs s) (for_each body ys).
Proof.
  revert s. induction xs as [|x xs IH]; intros s; simpl; [done|].
  destruct (body s x); simpl; [apply IH | done].
Qed.

(** *** The summary *)

Section Summary.
Variable float_of_str : string → result float.

Lemma hit_counted (line : string) : hit line = true → counted line = true.
Proof.
  unfold hit, counted. intros Hh. apply bool_decide_eq_true in Hh.
  apply bool_decide_eq_true. by left.
Qed.

(** One round of the loop on a line it can read. *)
Lemma analyze_line_step (t : tally) (line : string) :
  analyzable float_of_str line →
  analyze_line float_of_str t line
  = Ok (Tally (total_parts t + (if counted line then 1 else 0))
              (foldl PrimFloat.add (total_identity t)
                     (hit_identities float_of_str [line]))
              (hits t + (if hit line then 1 else 0))).
Proof.
  intros [[r Hr] Hhit]. unfold analyze_line, hit_identities, counted, hit, field in *.
  simpl. rewrite (index_lookup _ _ _ Hr). simpl. rewrite Hr.
  unfold is_H.
  destruct (decide (r = "H")) as [->|HnH].
  - rewrite !bool_decide_eq_true_2 by auto. simpl.
    rewrite bool_decide_eq_true_2 in Hhit by done.
    destruct (Hhit I) as (s & x & Hs & Hx).
    rewrite (index_lookup _ _ _ Hs). simpl. rewrite Hs, Hx. simpl.
    by rewrite ?N.add_0_r.
  - rewrite (bool_decide_eq_false_2 (Some r = Some "H")) by congruence.
    rewrite (bool_decide_eq_false_2 (r = "H")) by done.
    destruct (decide (r = "S")) as [->|HnS].
    + rewrite !bool_decide_eq_true_2 by auto. simpl.
      by rewrite ?N.add_0_r.
    + rewrite !bool_decide_eq_false_2 by (intros [?|?]; congruence). simpl.
      destruct t. simpl. by rewrite ?N.add_0_r.
Qed.

Lemma hit_identities_cons (line : string) (lines : list string) :
  hit_identities float_of_str (line :: lines)
  = (hit_identities float_of_str [line] ++ hit_identities float_of_str lines)%list.
Proof.
  unfold hit_identities. simpl.
  by destruct (if hit line then _ else _).
Qed.

Lemma count_lines_cons (test : string → bool) (line : string) (lines : list string) :
  count_lines test (line :: lines)
  = ((if test line then 1 else 0) + count_lines test lines)%N.
Proof.
  unfold count_lines. simpl. destruct (test line); simpl; lia.
Qed.

(** The loop, from any value of the counters. *)
Lemma analyze_loop (lines : list string) (t : tally) :
  Forall (analyzable float_of_str) lines →
  for_each (analyze_line float_of_str) lines t
  = Ok (Tally (total_parts t + count_lines counted lines)
              (foldl PrimFloat.add (total_identity t)
                     (hit_identities float_of_str lines))
              (hits t + count_lines hit lines)).
Proof.
  intros Hall. revert t.
  induction Hall as [|line lines Hline Hall IH]; intros t.
  - unfold count_lines. simpl. destruct t. simpl. by rewrite !N.add_0_r.
  - cbn [for_each]. rewrite (analyze_line_step t line Hline).
    cbn [result_bind]. rewrite IH.
    cbn [total_parts total_identity hits].
    rewrite (hit_identities_cons line lines), foldl_app, !count_lines_cons.
    by rewrite !N.add_assoc.
Qed.

Lemma analyze_uclust_summary (results : string) :
  Forall (analyzable float_of_str) (splitlines results) →
  analyze_uclust float_of_str results = Ok (summary float_of_str (splitlines results)).
Proof.
  intros Hall. unfold analyze_uclust, summary.
  rewrite (analyze_loop _ _ Hall). simpl.
  by rewrite !N.add_0_l.
Qed.

(** A line the loop cannot read stops it with an exception. *)
Lemma analyze_line_empty (t : tally) (line : string) :
  field 0 line = None → analyze_line float_of_str t line = Raised IndexError.
Proof.
  unfold field, analyze_line. intros Hn. by rewrite (index_Raised _ _ Hn).
Qed.

End Summary.

(** C6: on a report every line of which has a record type, and every [H]
    line a fourth field the builtin [float] accepts, the summary counts the
    lines of type [H] or [S] as parts, the lines of type [H] as hits, adds
    the identities (field 3) of the hits in order, and reports the sum
    divided by the number of hits as the mean when there is a hit.  With
    two [H] lines of identity 90.0 and 80.0 and one [S] line it logs
    3 parts, 2 hits and a mean of 85.0. *)
Theorem analyze_uclust_accounting :
  (∀ (float_of_str : string → result float) (results : string),
     Forall (analyzable float_of_str) (splitlines results) →
     let lines := splitlines results in
     let h := count_lines hit lines in
     analyze_uclust float_of_str results
     = Ok ([LogParts (count_lines counted lines); LogHits h] ++
           (if (0 <? h)%N
            then [LogAverage
                    (PrimFloat.div
                       (identity_sum (hit_identities float_of_str lines))
                       (float_of_N h))]
            else []))%list) ∧
  analyze_uclust decimal_float Doubles.three_part_report
  = Ok [LogParts 3; LogHits 2; LogAverage 85%float].
Proof.
  split.
  - intros float_of_str results Hall. by apply analyze_uclust_summary.
  - by vm_compute.
Qed.

Lemma three_part_report_analyzable :
  Forall (analyzable decimal_float) (splitlines Doubles.three_part_report).
Proof.
  assert (splitlines Doubles.three_part_report
          = ["S 0 120 * * * * * p1 *"; "H 0 118 90.0 + 0 0 118M p2 p1";
             "H 0 117 80.0 + 0 0 117M p3 p1"]) as -> by reflexivity.
  repeat (apply Forall_cons; split); try (by apply Forall_nil).
  all: unfold analyzable; split; [by eexists|].
  all: intros Hh; vm_compute in Hh; try done.
  all: eexists _, _; split; reflexivity.
Qed.

Lemma analyze_uclust_accounting_witness :
  analyze_uclust decimal_float Doubles.three_part_report
  = Ok (summary decimal_float (splitlines Doubles.three_part_report)).
Proof.
  apply (proj1 analyze_uclust_accounting decimal_float Doubles.three_part_report).
  apply three_part_report_analyzable.
Defined.

(** *** The cluster map *)

Lemma membership_Some (line c p : string) :
  membership line = Some (c, p) ↔
  hit line = true ∧ field 1 line = Some c ∧ field 8 line = Some p.
Proof.
  unfold membership. destruct (hit line); [|split; [done|by intros [? _]]].
  destruct (field 1 line) as [c'|]; simpl; [|split; [done|by intros (_ & ? & _)]].
  destruct (field 8 line) as [p'|]; simpl; [|split; [done|by intros (_ & _ & ?)]].
  split.
  - by intros [= -> ->].
  - by intros (_ & [= ->] & [= ->]).
Qed.





Lemma dict_set_wf {V} (k : string) (v : V) (d : dict V) :
  dict_wf d → dict_wf (dict_set k v d).
Proof.
  unfold dict_wf. intros Hwf.
  destruct (decide (k ∈ dict_keys d)) as [Hin|Hn].
  - by rewrite dict_keys_set_mem.
  - rewrite dict_keys_set_new by done.
    apply NoDup_app. split; [done|]. split.
    + intros x Hx Hk. apply list_elem_of_singleton in Hk. by subst.
    + apply NoDup_singleton.
Qed.







(** C5 (the code departs from it): a line of record type [S] leaves the
    clusters as they are, whatever its other fields, because the test
    [line[0] is 'S'] holds of no field; so the seed of a cluster is in no
    cluster set and has no entry of its own.  The report with one [S] line
    for cluster 0 and part [p1] and one [H] line for cluster 0 and part
    [p2] yields [{p2: set()}], not [{p1: {p2}, p2: {p1}}]. *)
Theorem uclust2clusters_skips_seed_lines :
  (∀ (cluster2parts : dict (gset string)) (line : string),
     field 0 line = Some "S" → cluster_line cluster2parts line = Ok cluster2parts) ∧
  uclust2clusters Doubles.two_part_report = Ok {[ "p2" := ∅ ]}.
Proof.
  split.
  - intros d line Hr. unfold cluster_line. unfold field in Hr.
    by rewrite (index_lookup _ _ _ Hr).
  - by vm_compute.
Qed.

End ClusterFacts.

(** ** [query.py]: pagination *)

Section PaginationFacts.
Import Py Query.
Context `{Net}.

Lemma requests_of_app (tr1 tr2 : list event) :
  requests_of (tr1 ++ tr2) = (requests_of tr1 ++ requests_of tr2)%list.
Proof. apply omap_app. Qed.

(** Every call of [send_query] is one request, at [page_url]. *)
Lemma send_query_trace (text endpoint : string) (st st' : state) (r : result (list row)) :
  send_query text endpoint st = (r, st') →
  cfg st' = cfg st ∧
  requests_of (trace st')
  = (requests_of (trace st) ++ [page_url (cfg st) endpoint text])%list.
Proof.
  unfold send_query, page_url, emit.
  destruct (requests_get _ (net st)) as [[resp|e] w].
  - destruct (decide (status_code resp ≠ 200%Z)).
    + intros [= <- <-]. simpl. split; [done|].
      rewrite !requests_of_app. simpl. by rewrite !app_nil_r.
    + destruct (json_bindings resp); intros [= <- <-]; simpl;
        (split; [done|]); by rewrite requests_of_app.
  - intros [= <- <-]. simpl. split; [done|].
    rewrite !requests_of_app. simpl. by rewrite app_nil_r.
Qed.

Lemma page_loop_S (fuel : nat) (query endpoint : string) (bar_counter : nat)
    (offset : N) (results : list row) (st : state) :
  page_loop (S fuel) query endpoint bar_counter offset results st
  = match send_query (full_query_at query offset) endpoint
            (emit (progress bar_counter) st) with
    | (Raised e, st') => Some (Raised e, st')
    | (Ok new_results, st') =>
        if decide (N.of_nat (length new_results) ≠ limit)
        then Some (Ok (results ++ new_results)%list, st')
        else page_loop fuel query endpoint (S bar_counter) (offset + limit)
               (results ++ new_results)%list st'
    end.
Proof. reflexivity. Qed.

(** With as many rounds as the store has pages, the loop returns them all. *)
Lemma page_loop_complete (query endpoint : string) (bar_counter : nat) (offset : N)
    (st st' : state) (pages : list (list row)) :
  answers query endpoint bar_counter offset st pages st' →
  ∀ (fuel : nat) (results : list row),
    (length pages ≤ fuel)%nat →
    page_loop fuel query endpoint bar_counter offset results st
    = Some (Ok (results ++ concat pages)%list, st').
Proof.
  induction 1 as [bc off st rows st' Hsend Hlen
                 |bc off st rows st1 pages st' Hsend Hlen Hrest IH];
    intros fuel results Hfuel; simpl in Hfuel;
    (destruct fuel as [|fuel]; [lia|]); rewrite page_loop_S, Hsend.
  - rewrite decide_True by done. simpl. by rewrite app_nil_r.
  - rewrite decide_False by (intros Hne; by apply Hne).
    rewrite IH by lia. simpl. by rewrite <- app_assoc.
Qed.

(** What the loop returns are the pages of the store. *)
Lemma page_loop_sound (fuel : nat) (query endpoint : string) (bar_counter : nat)
    (offset : N) (results rows : list row) (st st' : state) :
  page_loop fuel query endpoint bar_counter offset results st = Some (Ok rows, st') →
  ∃ pages, answers query endpoint bar_counter offset st pages st' ∧
           rows = (results ++ concat pages)%list ∧ (length pages ≤ fuel)%nat.
Proof.
  revert bar_counter offset results st.
  induction fuel as [|fuel IH]; intros bc off results st; [done|].
  rewrite page_loop_S.
  destruct (send_query _ _ _) as [[new|e] st1] eqn:Hsend; [|done].
  destruct (decide (N.of_nat (length new) ≠ limit)) as [Hne|Heq].
  - intros [= <- <-]. exists [new]. split; [by apply answers_last|].
    simpl. rewrite app_nil_r. split; [done|lia].
  - intros Hrest. destruct (IH _ _ _ _ Hrest) as (pages & Hans & -> & Hlen).
    exists (new :: pages). split.
    + eapply answers_more; [done| |done].
      by destruct (decide (N.of_nat (length new) = limit)).
    + simpl. rewrite <- app_assoc. split; [done|lia].
Qed.

(** The requests behind the pages: one per page, the offset growing by
    [limit]. *)
Lemma answers_requests (query endpoint : string) (bar_counter : nat) (offset : N)
    (st st' : state) (pages : list (list row)) :
  answers query endpoint bar_counter offset st pages st' →
  cfg st' = cfg st ∧
  requests_of (trace st')
  = (requests_of (trace st) ++
     ((λ i : nat, page_url (cfg st) endpoint
                    (full_query_at query (offset + N.of_nat i * limit)))
      <$> seq 0 (length pages)))%list.
Proof.
  induction 1 as [bc off st rows st' Hsend Hlen
                 |bc off st rows st1 pages st' Hsend Hlen Hrest IH].
  - apply send_query_trace in Hsend as [Hc Hr]. split; [done|].
    rewrite Hr. unfold emit. simpl. rewrite requests_of_app. simpl.
    by rewrite app_nil_r, N.add_0_r.
  - apply send_query_trace in Hsend as [Hc Hr].
    destruct IH as [Hc' Hr']. split; [by rewrite Hc', Hc|].
    rewrite Hr', Hr, Hc. unfold emit. simpl. rewrite requests_of_app. simpl.
    rewrite app_nil_r, N.add_0_r, <- app_assoc. simpl. do 2 f_equal.
    rewrite <- fmap_S_seq, <- list_fmap_compose.
    apply list_fmap_ext. intros i k _. simpl. do 2 f_equal. lia.
Qed.

(** Only the last page has a size other than [limit]. *)
Lemma answers_sizes (query endpoint : string) (bar_counter : nat) (offset : N)
    (st st' : state) (pages : list (list row)) :
  answers query endpoint bar_counter offset st pages st' →
  ∀ (i : nat) (rows : list row),
    pages !! i = Some rows →
    (N.of_nat (length rows) = limit ↔ (S i < length pages)%nat).
Proof.
  induction 1 as [bc off st rows st' Hsend Hlen
                 |bc off st rows st1 pages st' Hsend Hlen Hrest IH];
    intros i r Hi.
  - destruct i as [|i]; [|done]. injection Hi as <-. simpl. split; [done|lia].
  - destruct i as [|i]; simpl in *.
    + injection Hi as <-. split; [|done]. intros _.
      inversion Hrest; simpl; lia.
    + rewrite (IH i r Hi). lia.
Qed.

Lemma answers_nonempty (query endpoint : string) (bar_counter : nat) (offset : N)
    (st st' : state) (pages : list (list row)) :
  answers query endpoint bar_counter offset st pages st' → pages ≠ [].
Proof. by inversion 1. Qed.

(** C1 (amended): for every query and endpoint, [page_query] sends page
    requests with [LIMIT 10000], the first at [OFFSET 0] and each next one
    [limit] further, as long as the pages come back with exactly [limit]
    rows.  It stops at the first page whose number of rows differs from
    [limit] (fewer, or more), and returns all pages' rows in order.  So when
    the store answers [n] pages, the last one alone of another size, exactly
    [n] requests are sent (three, for full pages at offsets 0 and [limit]
    and another size at [2*limit]), and [n] rounds suffice for the loop to
    return.  Conversely whatever the loop returns is such a run of pages. *)
Theorem page_query_pagination (query endpoint : string) (st : state) :
  let text := paged_text (cfg st) query endpoint in
  let st0 := emit (Log ("Current endpoint: " +:+ endpoint)) st in
  (∀ (pages : list (list row)) (st' : state),
     answers text endpoint 0 0 st0 pages st' →
     (∀ fuel : nat,
        (length pages ≤ fuel)%nat →
        page_query fuel query endpoint st = Some (Ok (concat pages), st')) ∧
     requests_of (trace st')
     = (requests_of (trace st) ++
        ((λ i : nat, page_url (cfg st) endpoint
                       (full_query_at text (N.of_nat i * limit)))
         <$> seq 0 (length pages)))%list ∧
     (∀ (i : nat) (rows : list row),
        pages !! i = Some rows →
        (N.of_nat (length rows) = limit ↔ (S i < length pages)%nat))) ∧
  (∀ (fuel : nat) (rows : list row) (st' : state),
     page_query fuel query endpoint st = Some (Ok rows, st') →
     ∃ pages : list (list row),
       answers text endpoint 0 0 st0 pages st' ∧
       rows = concat pages ∧ (length pages ≤ fuel)%nat).
Proof.
  intros text st0. split.
  - intros pages st' Hans. split; [|split].
    + intros fuel Hfuel.
      change (page_query fuel query endpoint st)
        with (page_loop fuel text endpoint 0 0 [] st0).
      by rewrite (page_loop_complete _ _ _ _ _ _ _ Hans fuel []).
    + destruct (answers_requests _ _ _ _ _ _ _ Hans) as [_ Hr].
      rewrite Hr. unfold st0, emit. simpl. rewrite requests_of_app. simpl.
      by rewrite app_nil_r.
    + by apply (answers_sizes _ _ _ _ _ _ _ Hans).
  - intros fuel rows st' Hrun.
    change (page_query fuel query endpoint st)
      with (page_loop fuel text endpoint 0 0 [] st0) in Hrun.
    destruct (page_loop_sound _ _ _ _ _ _ _ _ _ Hrun) as (pages & Hans & -> & Hlen).
    by exists pages.
Qed.

End PaginationFacts.

(** *** The scripted store of the worked examples *)

Section ScriptedStore.
Import Py Query.

Lemma rows_of_bindings_replicate (n : nat) (b : binding) (r : row) (acc : list row) :
  row_of_binding b = Ok r →
  rows_of_bindings (replicate n b) acc = Ok (acc ++ replicate n r)%list.
Proof.
  intros Hb. revert acc. induction n as [|n IH]; intros acc; simpl.
  - by rewrite app_nil_r.
  - rewrite Hb, IH. by rewrite <- app_assoc.
Qed.

Variable script : nat → result response.
Variable peers : list instance.

(** A request the script answers with a page of [n] bindings. *)
Lemma scripted_send_query (text endpoint : string) (n : N)
    (st : @state (Doubles.scripted_store script peers)) :
  script (net st) = Ok (Doubles.page_of n) →
  @send_query (Doubles.scripted_store script peers) text endpoint st
  = (Ok (replicate (N.to_nat n) [("subject", "http://example.org/part")]),
     @State (Doubles.scripted_store script peers) (cfg st) (S (net st))
       (trace st ++ [HttpGet (@page_url (Doubles.scripted_store script peers)
                                (cfg st) endpoint text)])).
Proof.
  intros Hscript. unfold send_query, page_url. cbn [requests_get Doubles.scripted_store].
  rewrite Hscript. unfold Doubles.page_of.
  cbn [status_code json_bindings]. rewrite decide_False by (intros Hne; by apply Hne).
  by rewrite (rows_of_bindings_replicate _ _ [("subject", "http://example.org/part")]).
Qed.

Lemma replicate_size {A} (n : N) (x : A) : N.of_nat (length (replicate (N.to_nat n) x)) = n.
Proof. by rewrite length_replicate, N2Nat.id. Qed.

End ScriptedStore.

(** Two full pages and a page of 42 rows: three requests, 20042 rows. *)
Lemma page_query_pagination_witness :
  let store := Doubles.scripted_store Doubles.three_pages [] in
  let e := "http://localhost:8890/sparql?" in
  let r : Query.row := [("subject", "http://example.org/part")] in
  let full := replicate (N.to_nat 10000) r in
  let short := replicate (N.to_nat 42) r in
  ∃ st' : @Query.state store,
    @Query.page_query store 3 "SELECT ?s WHERE { ?s ?p ?o } " e
      (@Query.State store Doubles.local_config 0%nat [])
    = Some (Py.Ok (concat [full; full; short]), st') ∧
    length (Query.requests_of (Query.trace st')) = 3%nat.
Proof.
  intros store e r full short.
  pose (q := "SELECT ?s WHERE { ?s ?p ?o } ").
  pose (st := @Query.State store Doubles.local_config 0%nat []).
  pose (st0 := Query.emit (Query.Log ("Current endpoint: " +:+ e)) st).
  assert (∃ st3, Query.answers q e 0 0 st0 [full; full; short] st3) as [st3 Hans].
  { eexists.
    eapply Query.answers_more;
      [by apply (scripted_send_query Doubles.three_pages [] _ _ 10000)
      |apply replicate_size|].
    eapply Query.answers_more;
      [by apply (scripted_send_query Doubles.three_pages [] _ _ 10000)
      |apply replicate_size|].
    eapply Query.answers_last;
      [by apply (scripted_send_query Doubles.three_pages [] _ _ 42)
      |unfold short; by rewrite replicate_size]. }
  exists st3.
  destruct (proj1 (@page_query_pagination store q e st) _ _ Hans) as (Hrun & Hreq & _).
  split.
  - apply Hrun. reflexivity.
  - rewrite Hreq. reflexivity.
Defined.

(** C1 as stated fails: a store that answers 10001 rows makes the loop stop
    after one request, on a page that has not fewer rows than the limit. *)
Lemma page_query_stops_on_larger_page :
  let store := Doubles.scripted_store Doubles.oversized [] in
  let e := "http://localhost:8890/sparql?" in
  let r : Query.row := [("subject", "http://example.org/part")] in
  let page := replicate (N.to_nat 10001) r in
  ∃ st' : @Query.state store,
    @Query.page_query store 5 "SELECT ?s WHERE { ?s ?p ?o } " e
      (@Query.State store Doubles.local_config 0%nat [])
    = Some (Py.Ok page, st') ∧
    length (Query.requests_of (Query.trace st')) = 1%nat ∧
    ¬ (N.of_nat (length page) < Query.limit)%N.
Proof.
  intros store e r page.
  pose (q := "SELECT ?s WHERE { ?s ?p ?o } ").
  pose (st := @Query.State store Doubles.local_config 0%nat []).
  pose (st0 := Query.emit (Query.Log ("Current endpoint: " +:+ e)) st).
  assert (∃ st1, Query.answers q e 0 0 st0 [page] st1 ∧
                 length (Query.requests_of (Query.trace st1)) = 1%nat)
    as (st1 & Hans & Hreq).
  { eexists. split.
    - eapply Query.answers_last;
        [by apply (scripted_send_query Doubles.oversized [] _ _ 10001)
        |unfold page; by rewrite replicate_size].
    - reflexivity. }
  exists st1. split; [|split; [done|]].
  - pose proof (page_loop_complete _ _ _ _ _ _ _ Hans 5 []) as Hrun.
    rewrite <- (app_nil_r page). apply Hrun. cbn [length]. lia.
  - unfold page. rewrite replicate_size. by vm_compute.
Qed.

(** ** [query.py]: federation *)

Section FederationFacts.
Import Py Query.
Context `{Net}.

(** A transport error makes [send_query] raise. *)
Lemma send_query_network_error (text endpoint : string) (st : state)
    (e : exn) (w : world) :
  requests_get (page_url (cfg st) endpoint text) (net st) = (Raised e, w) →
  (send_query text endpoint st).1
  = Raised (Exception "Local SynBioHub isn't responding").
Proof. unfold send_query, page_url. by intros ->. Qed.

(** So does every status other than 200, and with it every non-2xx status. *)
Lemma send_query_bad_status (text endpoint : string) (st : state)
    (resp : response) (w : world) :
  requests_get (page_url (cfg st) endpoint text) (net st) = (Ok resp, w) →
  status_code resp ≠ 200%Z →
  (send_query text endpoint st).1
  = Raised (Exception (page_url (cfg st) endpoint text +:+ " is not responding")).
Proof.
  unfold send_query, page_url. intros -> Hs. by rewrite decide_True.
Qed.

(** A first page that raises makes [page_query] raise. *)
Lemma page_query_first_page_raises (fuel : nat) (query endpoint : string)
    (st st' : state) (e : exn) :
  send_query (full_query_at (paged_text (cfg st) query endpoint) 0) endpoint
    (emit (progress 0) (emit (Log ("Current endpoint: " +:+ endpoint)) st))
  = (Raised e, st') →
  page_query (S fuel) query endpoint st = Some (Raised e, st').
Proof.
  intros Hsend.
  change (page_query (S fuel) query endpoint st)
    with (page_loop (S fuel) (paged_text (cfg st) query endpoint) endpoint 0 0 []
            (emit (Log ("Current endpoint: " +:+ endpoint)) st)).
  by rewrite page_loop_S, Hsend.
Qed.

Lemma query_endpoints_app (fuel : nat) (query : string) (before rest : list string)
    (results : list row) (st : state) :
  query_endpoints fuel query (before ++ rest) results st
  = match query_endpoints fuel query before results st with
    | Some (Ok rows, st') => query_endpoints fuel query rest rows st'
    | other => other
    end.
Proof.
  revert results st. induction before as [|b before IH]; intros results st; simpl.
  - done.
  - destruct (page_query fuel query b st) as [[[rows|e] st']|]; [|done|done].
    apply IH.
Qed.

(** C3: with federation enabled, whatever the endpoints, if the page query
    against one of them raises (after the endpoints before it have been
    paged through), [query_sparql] raises the "Endpoint not responding"
    exception: the call yields no row, the rows fetched from the endpoints
    before are dropped, and the endpoints after are not asked. *)
Theorem query_sparql_fail_fast (fuel : nat) (query : string) (st st1 st2 st3 : state)
    (endpoints before after : list string) (endpoint : string)
    (rows : list row) (e : exn) :
  distributed_search (cfg st) = true →
  endpoints_of st = (Ok endpoints, st1) →
  endpoints = (before ++ endpoint :: after)%list →
  query_endpoints fuel query before [] st1 = Some (Ok rows, st2) →
  page_query fuel query endpoint st2 = Some (Raised e, st3) →
  query_sparql fuel query st
  = Some (Raised (Exception "Endpoint not responding"),
          emit (Log ("[ERROR] failed querying:" +:+ endpoint)) st3) ∧
  requests_of (trace (emit (Log ("[ERROR] failed querying:" +:+ endpoint)) st3))
  = requests_of (trace st3).
Proof.
  intros _ Hends -> Hbefore Hfail. split.
  - unfold query_sparql. rewrite Hends, query_endpoints_app, Hbefore.
    simpl. by rewrite Hfail.
  - unfold emit. simpl. rewrite requests_of_app. simpl. by rewrite app_nil_r.
Qed.

End FederationFacts.

(** Two peers, the second answering 503: the rows of the primary store and
    of the first peer are dropped. *)
Lemma query_sparql_fail_fast_witness :
  let store := Doubles.routed_store Doubles.second_peer_down Doubles.two_peers in
  ∃ st' : @Query.state store,
    @Query.query_sparql store 1 "SELECT ?s WHERE { ?s ?p ?o } "
      (@Query.State store Doubles.federated_config () [])
    = Some (Py.Raised (Py.Exception "Endpoint not responding"), st') ∧
    length (Query.requests_of (Query.trace st')) = 3%nat.
Proof.
  intros store.
  pose (q := "SELECT ?s WHERE { ?s ?p ?o } ").
  pose (st := @Query.State store Doubles.federated_config () []).
  assert (∃ e st2 st3 rows,
            @Query.query_endpoints store 1 q
              ["http://localhost:8890/sparql?"; "http://peer1.example/sparql?"] [] st
            = Some (Py.Ok rows, st2) ∧
            @Query.page_query store 1 q "http://peer2.example/sparql?" st2
            = Some (Py.Raised e, st3) ∧
            length (Query.requests_of (Query.trace st3)) = 3%nat)
    as (e & st2 & st3 & rows & Hbefore & Hfail & Hreq).
  { do 4 eexists. split; [reflexivity|]. split; reflexivity. }
  eexists.
  destruct (@query_sparql_fail_fast store 1 q st st st2 st3
              ["http://localhost:8890/sparql?"; "http://peer1.example/sparql?";
               "http://peer2.example/sparql?"]
              ["http://localhost:8890/sparql?"; "http://peer1.example/sparql?"]
              [] "http://peer2.example/sparql?" rows e
              eq_refl eq_refl eq_refl Hbefore Hfail) as [Hrun Htrace].
  split; [exact Hrun|]. by rewrite Htrace.
Defined.

(** ** [query.py]: the query cache *)

Section RecencyFacts.
Import Py Query.

Lemma last_use_bounds (k : string) (h : list string) (pos p : nat) :
  last_use k h pos = Some p → (pos ≤ p < pos + length h)%nat ∧ k ∈ h.
Proof.
  revert pos. induction h as [|k' h IH]; intros pos; simpl; [done|].
  destruct (last_use k h (S pos)) as [p'|] eqn:Hl.
  - intros [= ->]. destruct (IH _ Hl) as [Hb Hin]. split; [lia|by right].
  - destruct (decide (k = k')) as [->|]; [|done].
    intros [= ->]. split; [lia|left].
Qed.

Lemma last_use_elem_of (k : string) (h : list string) (pos : nat) :
  k ∈ h → is_Some (last_use k h pos).
Proof.
  revert pos. induction h as [|k' h IH]; intros pos Hin; simpl.
  - by apply elem_of_nil in Hin.
  - destruct (last_use k h (S pos)) as [p'|] eqn:Hl; [by eexists|].
    destruct (decide (k = k')) as [->|Hne]; [by eexists|].
    apply elem_of_cons in Hin as [?|Hin]; [done|].
    destruct (IH (S pos) Hin) as [p Hp]. congruence.
Qed.

Lemma last_use_snoc (k k' : string) (h : list string) (pos : nat) :
  last_use k (h ++ [k']) pos
  = if decide (k = k') then Some (pos + length h)%nat else last_use k h pos.
Proof.
  revert pos. induction h as [|k0 h IH]; intros pos; simpl.
  - destruct (decide (k = k')); [f_equal; lia|done].
  - rewrite IH. destruct (decide (k = k')) as [->|Hne]; [f_equal; lia|done].
Qed.

Lemma used_at_snoc_same (h : list string) (k : string) :
  used_at (h ++ [k]) k = length h.
Proof. unfold used_at. rewrite last_use_snoc. by rewrite decide_True. Qed.

Lemma used_at_snoc_other (h : list string) (k k' : string) :
  k ≠ k' → used_at (h ++ [k']) k = used_at h k.
Proof. intros Hne. unfold used_at. rewrite last_use_snoc. by rewrite decide_False. Qed.

Lemma used_at_lt (h : list string) (k : string) :
  k ∈ h → (used_at h k < length h)%nat.
Proof.
  intros Hin. unfold used_at.
  destruct (last_use_elem_of k h 0 Hin) as [p Hp]. rewrite Hp. simpl.
  apply last_use_bounds in Hp. lia.
Qed.

(** *** Lists in order of last use *)

Lemma StronglySorted_filter_keep {A} (R : relation A) (P : A → Prop)
    `{∀ x, Decision (P x)} (l : list A) :
  StronglySorted R l → StronglySorted R (filter P l).
Proof.
  induction 1 as [|x l Hl IH Hx]; [constructor|].
  rewrite filter_cons. destruct (decide (P x)); [|done].
  constructor; [done|].
  apply Forall_forall. intros y Hy. apply list_elem_of_filter in Hy as [_ Hy].
  by eapply Forall_forall in Hx.
Qed.

Lemma StronglySorted_snoc {A} (R : relation A) (l : list A) (x : A) :
  StronglySorted R l → Forall (λ a, R a x) l → StronglySorted R (l ++ [x]).
Proof.
  induction 1 as [|y l Hl IH Hy]; intros Hall; simpl.
  - repeat constructor.
  - apply Forall_cons in Hall as [Hyx Hall]. constructor; [by apply IH|].
    apply Forall_app. split; [done|]. by repeat constructor.
Qed.

Lemma StronglySorted_tail {A} (R : relation A) (l : list A) :
  StronglySorted R l → StronglySorted R (tail l).
Proof. destruct 1; [constructor|done]. Qed.

Lemma StronglySorted_among {A} (R R' : relation A) (l : list A) :
  (∀ a b, a ∈ l → b ∈ l → R a b → R' a b) →
  StronglySorted R l → StronglySorted R' l.
Proof.
  intros Himp Hl. induction Hl as [|x l Hl IH Hx]; [constructor|].
  constructor.
  - apply IH. intros a b Ha Hb. apply Himp; by right.
  - apply Forall_forall. intros y Hy. apply Himp; [left|by right|].
    by eapply Forall_forall in Hx.
Qed.

Lemma recency_nil (n : nat) : recency n [] [].
Proof.
  split; [simpl; lia|]. split; [constructor|]. split; [|constructor].
  intros k Hk. by apply elem_of_nil in Hk.
Qed.

(** Keys other than [q], in recency order, stay so with [q] used last. *)
Lemma recency_snoc_sorted (history base : list string) (q : string) :
  (∀ k, k ∈ base → k ∈ history ∧ k ≠ q) →
  StronglySorted (older history) base →
  StronglySorted (older (history ++ [q])) (base ++ [q]).
Proof.
  intros Hbase Hs. apply StronglySorted_snoc.
  - apply (StronglySorted_among (older history)); [|done].
    intros a b Ha Hb. unfold older.
    destruct (Hbase a Ha) as [_ Hna], (Hbase b Hb) as [_ Hnb].
    by rewrite !used_at_snoc_other.
  - apply Forall_forall. intros a Ha. unfold older.
    destruct (Hbase a Ha) as [Hin Hna].
    rewrite used_at_snoc_same, used_at_snoc_other by done.
    by apply used_at_lt.
Qed.

Lemma recency_touch (n : nat) (history keys : list string) (q : string) :
  (0 < n)%nat →
  recency n history keys →
  recency n (history ++ [q]) (lru_touch n q keys).
Proof.
  intros Hn (Hlen & Hnd & Hin & Hs). unfold lru_touch.
  destruct (bool_decide (q ∈ keys)) eqn:Hq.
  - apply bool_decide_eq_true in Hq.
    assert (∀ k, k ∈ filter (λ k', k' ≠ q) keys → k ∈ history ∧ k ≠ q) as Hbase.
    { intros k [Hk Hk']%list_elem_of_filter. split; [by apply Hin|done]. }
    split; [|split; [|split]].
    + rewrite length_app. simpl.
      pose proof (length_filter_lt (λ k', k' ≠ q) keys q Hq) as Hlt.
      assert (length (filter (λ k', k' ≠ q) keys) < length keys)%nat
        by (apply Hlt; by intros Hne). lia.
    + apply NoDup_app. split; [by apply NoDup_filter|]. split.
      * intros k Hk Hk'. apply list_elem_of_singleton in Hk' as ->.
        by destruct (Hbase q Hk).
      * apply NoDup_singleton.
    + intros k [Hk| ->%list_elem_of_singleton]%elem_of_app.
      * apply elem_of_app. left. by apply Hbase.
      * apply elem_of_app. right. by apply list_elem_of_singleton.
    + apply recency_snoc_sorted; [done|]. by apply StronglySorted_filter_keep.
  - apply bool_decide_eq_false in Hq.
    set (base := if bool_decide (n ≤ length keys)%nat then tail keys else keys).
    assert (∀ k, k ∈ base → k ∈ keys) as Hsub.
    { intros k. unfold base. destruct (bool_decide _); [|done].
      destruct keys; [done|]. simpl. by right. }
    assert (S (length base) ≤ n)%nat as Hbl.
    { unfold base. destruct (bool_decide (n ≤ length keys)%nat) eqn:Hfull.
      - apply bool_decide_eq_true in Hfull. destruct keys; simpl in *; lia.
      - apply bool_decide_eq_false in Hfull. lia. }
    assert (NoDup base) as Hbnd.
    { unfold base. destruct (bool_decide _); [|done].
      destruct keys; [done|]. by apply NoDup_cons in Hnd as [_ ?]. }
    assert (StronglySorted (older history) base) as Hbs.
    { unfold base. destruct (bool_decide _); [|done]. by apply StronglySorted_tail. }
    assert (∀ k, k ∈ base → k ∈ history ∧ k ≠ q) as Hbase.
    { intros k Hk. split; [by apply Hin, Hsub|]. intros ->. by apply Hq, Hsub. }
    split; [|split; [|split]].
    + rewrite length_app. simpl. lia.
    + apply NoDup_app. split; [done|]. split; [|apply NoDup_singleton].
      intros k Hk Hk'. apply list_elem_of_singleton in Hk' as ->.
      by destruct (Hbase q Hk).
    + intros k [Hk| ->%list_elem_of_singleton]%elem_of_app.
      * apply elem_of_app. left. by apply Hbase.
      * apply elem_of_app. right. by apply list_elem_of_singleton.
    + by apply recency_snoc_sorted.
Qed.

(** *** The cache *)

Lemma lru_remove_keys {V} (k : string) (d : dict V) :
  dict_keys (lru_remove k d) = filter (λ k', k' ≠ k) (dict_keys d).
Proof.
  unfold lru_remove, dict_keys. induction d as [|[k0 v0] d IH]; [done|].
  rewrite fmap_cons, !filter_cons. cbn [fst].
  destruct (decide (k0 ≠ k)); [|exact IH].
  rewrite fmap_cons. cbn [fst]. f_equal. exact IH.
Qed.

Lemma lru_store_keys {V} (n : nat) (k : string) (v : V) (d : dict V) :
  k ∉ dict_keys d →
  dict_keys (lru_store n k v d) = lru_touch n k (dict_keys d).
Proof.
  intros Hk. unfold lru_store, lru_touch, dict_keys in *.
  rewrite (bool_decide_eq_false_2 _ Hk), length_fmap.
  destruct (bool_decide (n ≤ length d)%nat); rewrite fmap_app; [|done].
  by destruct d.
Qed.

(** A call that returns touches the key; a call that raises leaves the
    cache alone. *)
Lemma lru_call_keys {V S} (n : nat) (f : string → S → option (result V * S))
    (key : string) (c c' : lru V) (s s' : S) (r : result V) :
  lru_call n f key c s = Some (r, c', s') →
  match r with
  | Ok _ => dict_keys (lru_entries c') = lru_touch n key (dict_keys (lru_entries c))
  | Raised _ => lru_entries c' = lru_entries c
  end.
Proof.
  unfold lru_call. destruct (dict_get key (lru_entries c)) as [v|] eqn:Hg.
  - intros [= <- <- <-]. simpl.
    unfold dict_keys at 1. rewrite fmap_app. fold (dict_keys (lru_remove key (lru_entries c))).
    rewrite lru_remove_keys. unfold lru_touch.
    by rewrite (bool_decide_eq_true_2 _ (dict_get_Some_mem _ _ _ Hg)).
  - destruct (f key s) as [[[v|e] s1]|]; [| |done].
    + intros [= <- <- <-]. simpl. apply lru_store_keys. by apply dict_get_None.
    + by intros [= <- <- <-].
Qed.

(** *** The keys of the cache, said directly *)

Lemma filter_ne_absent (q : string) (l : list string) :
  q ∉ l → filter (λ k', k' ≠ q) l = l.
Proof.
  induction l as [|x l IH]; [done|]. intros Hq.
  apply not_elem_of_cons in Hq as [Hne Hq].
  rewrite filter_cons_True by done. by rewrite IH.
Qed.

Lemma remove_dups_snoc (h : list string) (q : string) :
  remove_dups (h ++ [q]) = (filter (λ k', k' ≠ q) (remove_dups h) ++ [q])%list.
Proof.
  induction h as [|x h IH].
  - simpl. destruct (decide_rel elem_of q []) as [Hin|_]; [|done].
    by apply elem_of_nil in Hin.
  - simpl. rewrite IH.
    destruct (decide_rel elem_of x (h ++ [q])%list) as [Hin|Hnin];
      destruct (decide_rel elem_of x h) as [Hin'|Hnin']; try done.
    + apply elem_of_app in Hin as [Hin|Hin]; [done|].
      apply list_elem_of_singleton in Hin as ->.
      by rewrite filter_cons_False by (intros Hn; by apply Hn).
    + destruct Hnin. apply elem_of_app. by left.
    + rewrite filter_cons_True; [done|].
      intros ->. apply Hnin, elem_of_app. right. by apply list_elem_of_singleton.
Qed.

Lemma tail_drop {A} (k : nat) (l : list A) : tail (drop k l) = drop (S k) l.
Proof.
  revert l. induction k as [|k IH]; intros [|x l]; simpl; auto using drop_nil.
Qed.

Lemma elem_of_drop_inv {A} (x : A) (k : nat) (l : list A) : x ∈ drop k l → x ∈ l.
Proof.
  revert l. induction k as [|k IH]; intros [|y l]; simpl; try done.
  intros Hin. right. by apply IH.
Qed.

Lemma lru_touch_recent_fresh (n : nat) (rd : list string) (q : string) :
  (0 < n)%nat → q ∉ rd →
  lru_touch n q (drop (length rd - n) rd)
  = drop (length (rd ++ [q]) - n) (rd ++ [q]).
Proof.
  intros Hn Hq. unfold lru_touch.
  rewrite bool_decide_eq_false_2.
  2: { intros Hin. apply Hq. by eapply elem_of_drop_inv. }
  rewrite length_app, length_drop. simpl.
  destruct (decide (n ≤ length rd)%nat) as [Hle|Hgt].
  - rewrite bool_decide_eq_true_2 by lia.
    rewrite tail_drop.
    replace (length rd + 1 - n)%nat with (S (length rd - n)) by lia.
    rewrite drop_app_le by lia. done.
  - rewrite bool_decide_eq_false_2 by lia.
    replace (length rd - n)%nat with 0%nat by lia.
    replace (length rd + 1 - n)%nat with 0%nat by lia.
    by rewrite !drop_0.
Qed.

Lemma lru_touch_recent_used (n : nat) (l1 l2 : list string) (q : string) :
  (0 < n)%nat → q ∉ l1 → q ∉ l2 →
  lru_touch n q (drop (length (l1 ++ q :: l2) - n) (l1 ++ q :: l2))
  = drop (length (l1 ++ l2 ++ [q]) - n) (l1 ++ l2 ++ [q]).
Proof.
  intros Hn H1 H2.
  assert (length (l1 ++ l2 ++ [q]) = length (l1 ++ q :: l2)) as ->
    by (rewrite !length_app; simpl; lia).
  assert (length (l1 ++ q :: l2) = length l1 + S (length l2))%nat as Hlen
    by (by rewrite length_app).
  set (k := (length (l1 ++ q :: l2) - n)%nat).
  destruct (decide (k ≤ length l1)%nat) as [Hle|Hgt].
  - rewrite !drop_app_le by done. unfold lru_touch.
    rewrite bool_decide_eq_true_2.
    2: { apply elem_of_app. right. left. }
    rewrite filter_app, filter_cons_False by (intros Hne; by apply Hne).
    rewrite (filter_ne_absent q l2) by done.
    rewrite filter_ne_absent; [by rewrite <- app_assoc|].
    intros Hin. apply H1. by eapply elem_of_drop_inv.
  - rewrite !drop_app_ge by lia.
    replace (k - length l1)%nat with (S (k - length l1 - 1)) by lia.
    simpl. unfold lru_touch.
    rewrite bool_decide_eq_false_2.
    2: { intros Hin. apply H2. by eapply elem_of_drop_inv. }
    rewrite length_drop, bool_decide_eq_true_2 by lia.
    by rewrite tail_drop, drop_app_le by lia.
Qed.

Lemma lru_touch_recent (n : nat) (h : list string) (q : string) :
  (0 < n)%nat → lru_touch n q (recent n h) = recent n (h ++ [q]).
Proof.
  intros Hn. unfold recent. cbv zeta. rewrite remove_dups_snoc.
  pose proof (NoDup_remove_dups h) as Hnd.
  destruct (decide (q ∈ remove_dups h)) as [Hin|Hnin].
  - apply list_elem_of_split in Hin as (l1 & l2 & Heq). rewrite Heq in Hnd |- *.
    apply NoDup_app in Hnd as (_ & Hsep & Hnd2).
    apply NoDup_cons in Hnd2 as [H2 _].
    assert (q ∉ l1) as H1.
    { intros Hin. apply (Hsep q Hin). left. }
    rewrite filter_app, filter_cons_False by (intros Hne; by apply Hne).
    rewrite !filter_ne_absent by done.
    rewrite <- app_assoc. by apply lru_touch_recent_used.
  - rewrite filter_ne_absent by done. by apply lru_touch_recent_fresh.
Qed.

Section WithNet.
Context `{Net}.

Lemma run_queries_recency (fuel : nat) (queries served served' : list string)
    (c c' : lru (list row)) (st st' : state) :
  recency maxsize served (dict_keys (lru_entries c)) →
  run_queries fuel queries served c st = Some (served', c', st') →
  recency maxsize served' (dict_keys (lru_entries c')).
Proof.
  revert served c st. induction queries as [|q queries IH]; intros served c st Hrec; simpl.
  - by intros [= <- <- <-].
  - destruct (memoized_query_sparql fuel q c st) as [[[r c1] st1]|] eqn:Hcall; [|done].
    apply lru_call_keys in Hcall. destruct r as [rows|e].
    + apply IH. rewrite Hcall. apply recency_touch; [unfold maxsize; lia|done].
    + apply IH. by rewrite Hcall.
Qed.

Lemma run_queries_recent (fuel : nat) (queries served served' : list string)
    (c c' : lru (list row)) (st st' : state) :
  dict_keys (lru_entries c) = recent maxsize served →
  run_queries fuel queries served c st = Some (served', c', st') →
  dict_keys (lru_entries c') = recent maxsize served'.
Proof.
  revert served c st. induction queries as [|q queries IH]; intros served c st Hrec; simpl.
  - by intros [= <- <- <-].
  - destruct (memoized_query_sparql fuel q c st) as [[[r c1] st1]|] eqn:Hcall; [|done].
    apply lru_call_keys in Hcall. destruct r as [rows|e].
    + apply IH. rewrite Hcall, Hrec. apply lru_touch_recent. unfold maxsize. lia.
    + apply IH. by rewrite Hcall.
Qed.

(** C4: after any sequence of calls of [memoized_query_sparql] on an empty
    cache, the cache holds the queries that were answered, each of them
    once, up to the 32 most recently used of them and no other: so at most
    32 entries, in the order of their last use.  When it holds 32 and a
    query that is not among them is answered by the store, the entry that
    goes is the first one, which was used less recently than every other
    entry, while the new query takes the most recent place. *)
Theorem query_cache_bound (fuel : nat) (queries served : list string)
    (cache : lru (list row)) (st st' : state) :
  run_queries fuel queries [] lru_empty st = Some (served, cache, st') →
  let keys := dict_keys (lru_entries cache) in
  keys = recent 32 served ∧
  (length keys ≤ 32)%nat ∧ NoDup keys ∧ (∀ k, k ∈ keys → k ∈ served) ∧
  StronglySorted (older served) keys ∧
  ∀ (q : string) (rows : list row) (st'' : state),
    length keys = 32%nat → q ∉ keys →
    query_sparql fuel q st' = Some (Ok rows, st'') →
    ∃ (cache' : lru (list row)) (lru_key : string) (rest : list string),
      memoized_query_sparql fuel q cache st' = Some (Ok rows, cache', st'') ∧
      keys = (lru_key :: rest) ∧
      dict_keys (lru_entries cache') = (rest ++ [q])%list ∧
      (lru_key ∉ dict_keys (lru_entries cache')) ∧
      ∀ k, k ∈ rest → older served lru_key k.
Proof.
  intros Hrun keys.
  destruct (run_queries_recency fuel queries [] served lru_empty cache st st'
              (recency_nil maxsize) Hrun) as (Hlen & Hnd & Hin & Hs).
  fold keys in Hlen, Hnd, Hin, Hs.
  split; [exact (run_queries_recent fuel queries [] served lru_empty cache st st'
                   eq_refl Hrun)|].
  split; [done|]. split; [done|]. split; [done|]. split; [done|].
  intros q rows st'' Hfull Hq Hstore.
  destruct keys as [|lru_key rest] eqn:Hkeys; [done|].
  assert (dict_get q (lru_entries cache) = None) as Hmiss.
  { apply dict_get_None. fold keys. by rewrite Hkeys. }
  exists (Lru (lru_store maxsize q rows (lru_entries cache))
              (lru_hits cache) (lru_misses cache + 1)), lru_key, rest.
  assert (dict_keys (lru_store maxsize q rows (lru_entries cache))
          = (rest ++ [q])%list) as Hkeys'.
  { rewrite lru_store_keys by by apply dict_get_None.
    fold keys. rewrite Hkeys. unfold lru_touch.
    rewrite (bool_decide_eq_false_2 _ Hq).
    rewrite bool_decide_eq_true_2; [done|]. by rewrite Hfull. }
  split; [|split; [done|split; [done|split]]].
  - unfold memoized_query_sparql, lru_call. by rewrite Hmiss, Hstore.
  - simpl. rewrite Hkeys'. apply NoDup_cons in Hnd as [Hfresh _].
    intros [Hr| ->%list_elem_of_singleton]%elem_of_app; [done|].
    apply Hq. left.
  - intros k Hk. apply StronglySorted_inv in Hs as [_ Hall].
    by eapply Forall_forall in Hall.
Qed.

End WithNet.

End RecencyFacts.

(** Forty different queries through the cache, each answered by the
    store. *)
Lemma forty_queries_run :
  let store := Doubles.scripted_store Doubles.no_rows [] in
  ∃ (cache : Py.lru (list Query.row)) (st' : @Query.state store),
    @Query.run_queries store 1 Doubles.forty_queries [] Py.lru_empty
      (@Query.State store Doubles.local_config 0%nat [])
    = Some (Doubles.forty_queries, cache, st').
Proof.
  intros store. do 2 eexists. vm_compute. reflexivity.
Qed.

(** After the forty queries the cache holds 32 of them: the first eight
    have gone, the last 32 are there in the order they were asked. *)
Lemma query_cache_bound_witness :
  let store := Doubles.scripted_store Doubles.no_rows [] in
  ∃ (cache : Py.lru (list Query.row)) (st' : @Query.state store),
    @Query.run_queries store 1 Doubles.forty_queries [] Py.lru_empty
      (@Query.State store Doubles.local_config 0%nat [])
    = Some (Doubles.forty_queries, cache, st') ∧
    Py.dict_keys (Py.lru_entries cache) = drop 8 Doubles.forty_queries ∧
    length (Py.dict_keys (Py.lru_entries cache)) = 32%nat.
Proof.
  intros store. destruct forty_queries_run as (cache & st' & Hrun).
  exists cache, st'. split; [done|].
  destruct (@query_cache_bound store 1 Doubles.forty_queries Doubles.forty_queries
              cache _ st' Hrun) as (Hkeys & _).
  rewrite Hkeys. split; by vm_compute.
Defined.

(** ** [json.dumps] and [json.loads] *)

Section JsonFacts.
Import Py.

Lemma string_app_cons (x : ascii) (a b : string) :
  String x a +:+ b = String x (a +:+ b).
Proof. reflexivity. Qed.

Lemma string_app_nil (b : string) : "" +:+ b = b.
Proof. reflexivity. Qed.

Lemma string_app_assoc (a b c : string) : (a +:+ b) +:+ c = a +:+ (b +:+ c).
Proof.
  induction a as [|x a IH]; [done|].
  by rewrite !string_app_cons, IH.
Qed.

Lemma string_app_length (a b : string) :
  String.length (a +:+ b) = (String.length a + String.length b)%nat.
Proof.
  induction a as [|x a IH]; [done|].
  rewrite string_app_cons. simpl. by rewrite IH.
Qed.

(** Reading back one encoded character. *)
Lemma scanstring_escape_char (c : ascii) (s : string) :
  scanstring (escape_char c +:+ s)
  = '(t, rest) ← scanstring s; Some (String c t, rest).
Proof.
  destruct c as [[] [] [] [] [] [] [] []]; reflexivity.
Qed.

(** Reading back an encoded string, up to its closing quote. *)
Lemma scanstring_escape (s rest : string) :
  scanstring (escape s +:+ String quote rest) = Some (s, rest).
Proof.
  induction s as [|c s IH]; [done|].
  cbn [escape]. rewrite string_app_assoc, scanstring_escape_char, IH. done.
Qed.

Lemma encode_string_app (s rest : string) :
  encode_string s +:+ rest = String quote (escape s +:+ String quote rest).
Proof.
  unfold encode_string. by rewrite string_app_cons, string_app_assoc, string_app_cons.
Qed.

Lemma skip_ws_quote (s : string) : skip_ws (String quote s) = String quote s.
Proof. reflexivity. Qed.

Lemma skip_ws_space (s : string) : skip_ws (String " " s) = skip_ws s.
Proof. reflexivity. Qed.

Lemma skip_ws_colon (s : string) : skip_ws (String ":" s) = String ":" s.
Proof. reflexivity. Qed.

Lemma skip_ws_comma (s : string) : skip_ws (String "," s) = String "," s.
Proof. reflexivity. Qed.

Lemma skip_ws_open (s : string) : skip_ws (String "{" s) = String "{" s.
Proof. reflexivity. Qed.

Lemma members_text_cons (kv : string * string) (items : dict string) :
  members_text (kv :: items)
  = match items with
    | [] => encode_item kv
    | _ :: _ => encode_item kv +:+ ", " +:+ members_text items
    end.
Proof. by destruct items. Qed.

Lemma encode_item_app (k v rest : string) :
  encode_item (k, v) +:+ rest
  = String quote (escape k +:+ String quote
      (String ":" (String " " (String quote (escape v +:+ String quote rest))))).
Proof.
  unfold encode_item. cbn [fst snd].
  by rewrite !string_app_assoc, encode_string_app, !string_app_cons,
    string_app_nil, encode_string_app.
Qed.

(** Members start with the quote of their first key. *)
Lemma members_text_head (kv : string * string) (items : dict string) (rest : string) :
  ∃ t, members_text (kv :: items) +:+ rest = String quote t.
Proof.
  destruct kv as [k v]. rewrite members_text_cons. destruct items.
  - rewrite encode_item_app. by eexists.
  - rewrite string_app_assoc, encode_item_app. by eexists.
Qed.

(** One member read back: the parser is left at what follows the value. *)
Lemma parse_members_step (fuel : nat) (k v rest : string) (acc : dict string) :
  parse_members (S fuel) (encode_item (k, v) +:+ rest) acc
  = match skip_ws rest with
    | String "," s6 => parse_members fuel (skip_ws s6) (dict_set k v acc)
    | String "}" s6 => Some (dict_set k v acc, s6)
    | _ => None
    end.
Proof.
  rewrite encode_item_app. cbn [parse_members].
  destruct (decide (quote = quote)) as [_|Hq]; [|done].
  rewrite scanstring_escape. cbn [mbind option_bind].
  rewrite skip_ws_colon. cbv iota beta.
  rewrite skip_ws_space, skip_ws_quote. cbv iota beta.
  destruct (decide (quote = quote)) as [_|Hq]; [|done].
  rewrite scanstring_escape. cbn [mbind option_bind].
  reflexivity.
Qed.

(** All members read back, in order. *)
Lemma parse_members_items (items : dict string) (fuel : nat)
    (acc : dict string) (rest : string) :
  items ≠ [] → (length items ≤ fuel)%nat →
  parse_members fuel (members_text items +:+ String "}" rest) acc
  = Some (foldl (λ d kv, dict_set kv.1 kv.2 d) acc items, rest).
Proof.
  revert fuel acc. induction items as [|[k v] items IH]; intros fuel acc Hne Hfuel;
    [done|].
  destruct fuel as [|fuel]; [simpl in Hfuel; lia|].
  rewrite members_text_cons. destruct items as [|kv items].
  - by rewrite parse_members_step.
  - rewrite !string_app_assoc, parse_members_step.
    rewrite !string_app_cons, string_app_nil.
    rewrite skip_ws_comma. cbv iota beta. rewrite skip_ws_space.
    destruct (members_text_head kv items (String "}" rest)) as [t Ht].
    rewrite Ht, skip_ws_quote, <- Ht.
    rewrite IH; [done|done|]. simpl in *. lia.
Qed.

(** Assigning the items of a well-formed dictionary, in order, to keys
    that are new gives the items back. *)
Lemma foldl_dict_set_fresh (items acc : dict string) :
  NoDup (dict_keys acc ++ dict_keys items) →
  foldl (λ d kv, dict_set kv.1 kv.2 d) acc items = (acc ++ items)%list.
Proof.
  revert acc. induction items as [|[k v] items IH]; intros acc Hnd; simpl.
  - by rewrite app_nil_r.
  - assert (k ∉ dict_keys acc) as Hk.
    { apply NoDup_app in Hnd as (_ & Hdis & _). intros Hin.
      apply (Hdis k Hin). left. }
    rewrite (dict_set_new k v acc Hk), IH; [by rewrite <- app_assoc|].
    unfold dict_keys in *. rewrite fmap_app. simpl. by rewrite <- app_assoc.
Qed.

Lemma encode_item_length (kv : string * string) :
  (1 ≤ String.length (encode_item kv))%nat.
Proof.
  unfold encode_item, encode_string. rewrite string_app_length.
  cbn [String.length]. lia.
Qed.

Lemma members_text_length (items : dict string) :
  (length items ≤ String.length (members_text items))%nat.
Proof.
  induction items as [|kv items IH]; [done|].
  rewrite members_text_cons. pose proof (encode_item_length kv) as Hkv.
  destruct items as [|kv' items]; [simpl; lia|].
  rewrite !string_app_length. cbn [length] in *. lia.
Qed.

(** [json.loads] on an object that has a member. *)
Lemma json_loads_members (t : string) :
  json_loads (String "{" (String quote t))
  = '(d, s2) ← parse_members (String.length (String "{" (String quote t)))
                 (String quote t) [];
    if decide (skip_ws s2 = "") then Some d else None.
Proof. reflexivity. Qed.

(** What [json.loads] makes of the text [json.dumps] writes for items with
    distinct keys. *)
Lemma json_loads_object (items : dict string) :
  dict_wf items →
  json_loads ("{" +:+ members_text items +:+ "}") = Some items.
Proof.
  intros Hwf. destruct items as [|kv items]; [done|].
  rewrite string_app_cons, string_app_nil.
  destruct (members_text_head kv items "}") as [t Ht].
  rewrite Ht, json_loads_members, <- Ht.
  rewrite (parse_members_items (kv :: items) _ [] ""); [| done |].
  - cbn [mbind option_bind]. destruct (decide (skip_ws "" = "")) as [_|Hn]; [|done].
    by rewrite foldl_dict_set_fresh.
  - cbn [String.length]. pose proof (members_text_length (kv :: items)) as Hl.
    rewrite string_app_length. lia.
Qed.

(** *** Sorted items *)

Global Instance item_le_total {V} : Total (@item_le V).
Proof. intros a b. unfold item_le. apply String.le_total. Qed.

Global Instance item_le_trans {V} : Transitive (@item_le V).
Proof. intros a b c. unfold item_le. apply transitivity. Qed.

Lemma sorted_items_perm {V} (d : dict V) : sorted_items d ≡ₚ d.
Proof. apply merge_sort_Permutation. Qed.

Lemma dict_wf_perm {V} (d1 d2 : dict V) : d1 ≡ₚ d2 → dict_wf d1 → dict_wf d2.
Proof. unfold dict_wf, dict_keys. by intros ->. Qed.

Lemma sorted_items_wf {V} (d : dict V) : dict_wf d → dict_wf (sorted_items d).
Proof. apply dict_wf_perm. symmetry. apply sorted_items_perm. Qed.

Lemma dict_wf_item_unique {V} (d : dict V) (a b : string * V) :
  dict_wf d → a ∈ d → b ∈ d → a.1 = b.1 → a = b.
Proof.
  destruct a as [k v1], b as [k' v2]. simpl. intros Hwf Ha Hb <-.
  pose proof (dict_get_elem_of k v1 d Hwf Ha) as H1.
  pose proof (dict_get_elem_of k v2 d Hwf Hb) as H2. congruence.
Qed.

(** Two orders of the same items sort to the same list. *)
Lemma sorted_items_unique {V} (d1 d2 : dict V) :
  dict_wf d1 → d1 ≡ₚ d2 → sorted_items d1 = sorted_items d2.
Proof.
  intros Hwf Hperm. apply (StronglySorted_unique_strong item_le).
  - intros a b Ha Hb Hab Hba.
    apply (dict_wf_item_unique d1); [done| | |].
    + by rewrite <- (sorted_items_perm d1).
    + by rewrite Hperm, <- (sorted_items_perm d2).
    + unfold item_le in *. by apply (anti_symm String.le).
  - apply StronglySorted_merge_sort; apply _.
  - apply StronglySorted_merge_sort; apply _.
  - by rewrite !sorted_items_perm.
Qed.

Lemma sorted_items_idemp {V} (d : dict V) :
  dict_wf d → sorted_items (sorted_items d) = sorted_items d.
Proof.
  intros Hwf. apply sorted_items_unique; [by apply sorted_items_wf|].
  apply sorted_items_perm.
Qed.

(** *** The round trip *)

Lemma json_loads_dumps (d : dict string) :
  dict_wf d → json_loads (json_dumps_sorted d) = Some (sorted_items d).
Proof. intros Hwf. apply json_loads_object. by apply sorted_items_wf. Qed.

Lemma json_dumps_perm (d1 d2 : dict string) :
  dict_wf d1 → d1 ≡ₚ d2 → json_dumps_sorted d1 = json_dumps_sorted d2.
Proof.
  intros Hwf Hperm. unfold json_dumps_sorted.
  by rewrite (sorted_items_unique d1 d2).
Qed.

Lemma json_dumps_inj (d1 d2 : dict string) :
  dict_wf d1 → dict_wf d2 →
  json_dumps_sorted d1 = json_dumps_sorted d2 → d1 ≡ₚ d2.
Proof.
  intros Hwf1 Hwf2 Heq.
  pose proof (json_loads_dumps d1 Hwf1) as H1.
  pose proof (json_loads_dumps d2 Hwf2) as H2.
  rewrite Heq, H2 in H1. injection H1 as H1.
  by rewrite <- (sorted_items_perm d1), <- H1, sorted_items_perm.
Qed.

End JsonFacts.

(** ** [query.py]: deduplication *)

Section DedupFacts.
Import Py Query.

(** The first loop builds the set of the canonical texts of the rows. *)
Lemma deduped_set (results : list row) (acc : gset string) :
  foldl (λ acc r, acc ∪ {[ json_dumps_sorted r ]}) acc results
  = acc ∪ list_to_set (json_dumps_sorted <$> results).
Proof.
  revert acc. induction results as [|r results IH]; intros acc; simpl.
  - by rewrite (right_id_L ∅ (∪)).
  - rewrite IH. by rewrite (assoc_L (∪)).
Qed.

(** The second loop decodes every text of the set. *)
Lemma decode_loop (texts : list string) (out : list row) :
  Forall (λ s, is_Some (json_loads s)) texts →
  for_each (λ (out : list row) s,
              match json_loads s with
              | Some r => Ok (out ++ [r])%list
              | None => Raised JSONDecodeError
              end) texts out
  = Ok (out ++ omap json_loads texts)%list.
Proof.
  intros Hall. revert out. induction Hall as [|s texts [r Hs] Hall IH]; intros out.
  - simpl. by rewrite app_nil_r.
  - cbn [for_each omap list_omap]. rewrite Hs. cbn [result_bind].
    rewrite IH. by rewrite <- app_assoc.
Qed.

(** Texts that all come from rows are the texts of some of these rows. *)
Lemma texts_of_rows (results : list row) (texts : list string) :
  (∀ s, s ∈ texts → ∃ r, r ∈ results ∧ s = json_dumps_sorted r) →
  ∃ rs, texts = json_dumps_sorted <$> rs ∧ ∀ r, r ∈ rs → r ∈ results.
Proof.
  induction texts as [|s texts IH]; intros Hall.
  - exists []. split; [done|]. intros r Hr. by apply elem_of_nil in Hr.
  - destruct (Hall s) as (r & Hr & ->); [left|].
    destruct IH as (rs & -> & Hrs); [intros s' Hs'; apply Hall; by right|].
    exists (r :: rs). split; [done|].
    intros r' [->|Hr']%elem_of_cons; [done|by apply Hrs].
Qed.

Lemma omap_loads_dumps (rs : list row) :
  Forall dict_wf rs →
  omap json_loads (json_dumps_sorted <$> rs) = sorted_items <$> rs.
Proof.
  induction 1 as [|r rs Hr Hrs IH]; [done|].
  cbn [fmap list_fmap omap list_omap]. rewrite (json_loads_dumps r Hr).
  f_equal. exact IH.
Qed.

(** What [deduplicate_results] returns, for rows that are dictionaries. *)
Lemma deduplicate_results_run (results : list row) :
  Forall dict_wf results →
  ∃ rs,
    elements (list_to_set (json_dumps_sorted <$> results) : gset string)
    = json_dumps_sorted <$> rs ∧
    (∀ r, r ∈ rs → r ∈ results) ∧
    deduplicate_results results = Ok (sorted_items <$> rs).
Proof.
  intros Hwf.
  destruct (texts_of_rows results
              (elements (list_to_set (json_dumps_sorted <$> results) : gset string)))
    as (rs & Hrs & Hsub).
  { intros s Hs. apply elem_of_elements, elem_of_list_to_set in Hs.
    apply list_elem_of_fmap in Hs as (r & -> & Hr). by exists r. }
  exists rs. split; [done|]. split; [done|].
  assert (Forall dict_wf rs) as Hwfrs.
  { apply Forall_forall. intros r Hr. eapply Forall_forall in Hwf; [done|by apply Hsub]. }
  unfold deduplicate_results.
  rewrite deduped_set, (left_id_L ∅ (∪)), Hrs.
  rewrite decode_loop.
  - by rewrite omap_loads_dumps.
  - apply Forall_fmap, Forall_forall. intros r Hr. simpl.
    eapply Forall_forall in Hwfrs; [|done]. rewrite json_loads_dumps by done.
    by eexists.
Qed.

(** The rows returned stand for the rows given, one for each. *)
Lemma deduplicate_results_distinct (results : list row) :
  Forall dict_wf results →
  ∃ out : list row,
    deduplicate_results results = Ok out ∧
    Forall dict_wf out ∧
    (∀ r, r ∈ results → ∃ r', r' ∈ out ∧ dict_eq r r') ∧
    (∀ r', r' ∈ out → ∃ r, r ∈ results ∧ dict_eq r r') ∧
    (∀ (i j : nat) (r1 r2 : row),
       out !! i = Some r1 → out !! j = Some r2 → dict_eq r1 r2 → i = j).
Proof.
  intros Hwf.
  destruct (deduplicate_results_run results Hwf) as (rs & Hel & Hsub & Hrun).
  assert (Forall dict_wf rs) as Hwfrs.
  { apply Forall_forall. intros r Hr. eapply Forall_forall in Hwf; [done|by apply Hsub]. }
  exists (sorted_items <$> rs). split; [done|].
  split; [|split; [|split]].
  - apply Forall_fmap, Forall_forall. intros r Hr. simpl.
    apply sorted_items_wf. by eapply Forall_forall in Hwfrs.
  - intros r Hr.
    assert (json_dumps_sorted r ∈ json_dumps_sorted <$> rs) as Hin.
    { rewrite <- Hel. apply elem_of_elements, elem_of_list_to_set.
      apply list_elem_of_fmap. by exists r. }
    apply list_elem_of_fmap in Hin as (r0 & Heq & Hr0).
    exists (sorted_items r0). split; [apply list_elem_of_fmap; by exists r0|].
    unfold dict_eq. rewrite sorted_items_perm.
    apply json_dumps_inj; [| |done].
    + by eapply Forall_forall in Hwf.
    + by eapply Forall_forall in Hwfrs.
  - intros r' Hr'. apply list_elem_of_fmap in Hr' as (r & -> & Hr).
    exists r. split; [by apply Hsub|]. unfold dict_eq. by rewrite sorted_items_perm.
  - intros i j r1 r2 Hi Hj Heq.
    apply list_lookup_fmap_Some in Hi as (a & -> & Ha).
    apply list_lookup_fmap_Some in Hj as (b & -> & Hb).
    assert (dict_wf a) as Hwa
      by (eapply Forall_forall in Hwfrs; [done|by eapply list_elem_of_lookup_2]).
    assert (a ≡ₚ b) as Hab.
    { unfold dict_eq in Heq. by rewrite !sorted_items_perm in Heq. }
    assert (NoDup (json_dumps_sorted <$> rs)) as Hnd.
    { rewrite <- Hel. apply NoDup_elements. }
    eapply (NoDup_lookup _ i j (json_dumps_sorted a) Hnd).
    + by rewrite list_lookup_fmap, Ha.
    + rewrite list_lookup_fmap, Hb. simpl. f_equal. symmetry.
      by apply json_dumps_perm.
Qed.

(** Deduplicating rows that were deduplicated returns them as they are. *)
Lemma deduplicate_results_again (results out : list row) :
  Forall dict_wf results →
  deduplicate_results results = Ok out →
  deduplicate_results out = Ok out.
Proof.
  intros Hwf Hout.
  destruct (deduplicate_results_run results Hwf) as (rs & Hel & Hsub & Hrun).
  rewrite Hrun in Hout. injection Hout as <-.
  assert (Forall dict_wf rs) as Hwfrs.
  { apply Forall_forall. intros r Hr. eapply Forall_forall in Hwf; [done|by apply Hsub]. }
  assert (Forall dict_wf (sorted_items <$> rs)) as Hwfout.
  { apply Forall_fmap, Forall_forall. intros r Hr. simpl.
    apply sorted_items_wf. by eapply Forall_forall in Hwfrs. }
  destruct (deduplicate_results_run _ Hwfout) as (rs2 & Hel2 & Hsub2 & Hrun2).
  rewrite Hrun2. f_equal.
  assert (json_dumps_sorted <$> (sorted_items <$> rs) = json_dumps_sorted <$> rs)
    as Hsame.
  { rewrite <- list_fmap_compose. apply list_fmap_ext. intros k r Hr. simpl.
    apply json_dumps_perm; [|apply sorted_items_perm].
    apply sorted_items_wf. eapply Forall_forall in Hwfrs; [done|].
    by eapply list_elem_of_lookup_2. }
  rewrite Hsame, <- Hel, list_to_set_elements_L, Hel in Hel2.
  assert (omap json_loads (json_dumps_sorted <$> rs2)
          = omap json_loads (json_dumps_sorted <$> rs)) as Hdec by by rewrite Hel2.
  assert (Forall dict_wf rs2) as Hwfrs2.
  { apply Forall_forall. intros r Hr.
    eapply Forall_forall in Hwfout; [done|by apply Hsub2]. }
  by rewrite !omap_loads_dumps in Hdec by done.
Qed.

(** C2: for rows that are dictionaries, [deduplicate_results]
    returns dictionaries; every row given has a representative among them
    (the same items, whatever the order of the keys), every row returned
    represents a row given, no two rows returned have the same items, and
    deduplicating the result again returns the same rows. *)
Theorem deduplicate_results_representatives (results : list row) :
  Forall dict_wf results →
  ∃ out : list row,
    deduplicate_results results = Ok out ∧
    Forall dict_wf out ∧
    (∀ r, r ∈ results → ∃ r', r' ∈ out ∧ dict_eq r r') ∧
    (∀ r', r' ∈ out → ∃ r, r ∈ results ∧ dict_eq r r') ∧
    (∀ (i j : nat) (r1 r2 : row),
       out !! i = Some r1 → out !! j = Some r2 → dict_eq r1 r2 → i = j) ∧
    ∃ out2 : list row, deduplicate_results out = Ok out2 ∧ out2 ≡ₚ out.
Proof.
  intros Hwf.
  destruct (deduplicate_results_distinct results Hwf)
    as (out & Hrun & Hwfout & Hcomplete & Hsound & Hdistinct).
  exists out. repeat split; try done.
  exists out. split; [|done]. by apply (deduplicate_results_again results).
Qed.

(** The three rows of the example, two of them the same row with its keys
    in another order, come back as two rows. *)
Lemma deduplicate_results_representatives_witness :
  ∃ out : list row,
    deduplicate_results Doubles.rows_with_duplicate = Ok out ∧
    Forall dict_wf out ∧
    (∀ r, r ∈ Doubles.rows_with_duplicate → ∃ r', r' ∈ out ∧ dict_eq r r') ∧
    (∀ r', r' ∈ out → ∃ r, r ∈ Doubles.rows_with_duplicate ∧ dict_eq r r') ∧
    (∀ (i j : nat) (r1 r2 : row),
       out !! i = Some r1 → out !! j = Some r2 → dict_eq r1 r2 → i = j) ∧
    ∃ out2 : list row, deduplicate_results out = Ok out2 ∧ out2 ≡ₚ out.
Proof.
  apply (deduplicate_results_representatives Doubles.rows_with_duplicate).
  unfold Doubles.rows_with_duplicate, dict_wf.
  repeat apply Forall_cons_2; try apply Forall_nil_2;
    apply (bool_decide_unpack _); by vm_compute.
Defined.

End DedupFacts.

(** ** [query.py]: the rows of a query *)

Section RowsFacts.
Import Py Query.

Lemma row_of_binding_loop (b : binding) (acc r : row) :
  for_each (λ (res : row) (kv : string * option string),
              match kv.2 with
              | Some v => Ok (dict_set kv.1 v res)
              | None => Raised (KeyError "value")
              end) b acc = Ok r →
  dict_wf acc → dict_wf r.
Proof.
  revert acc. induction b as [|[k [v|]] b IH]; intros acc Hrun Hacc.
  - simpl in Hrun. by injection Hrun as <-.
  - cbn [for_each snd fst result_bind] in Hrun. eapply IH; [done|].
    by apply dict_set_wf.
  - by cbn [for_each snd fst result_bind] in Hrun.
Qed.

Lemma row_of_binding_wf (b : binding) (r : row) :
  row_of_binding b = Ok r → dict_wf r.
Proof.
  intros Hrun. eapply row_of_binding_loop; [done|]. apply NoDup_nil_2.
Qed.

Lemma rows_of_bindings_wf (bs : list binding) (acc rows : list row) :
  rows_of_bindings bs acc = Ok rows → Forall dict_wf acc → Forall dict_wf rows.
Proof.
  revert acc. induction bs as [|b bs IH]; intros acc Hrun Hacc.
  - simpl in Hrun. by injection Hrun as <-.
  - simpl in Hrun. destruct (row_of_binding b) as [r|e] eqn:Hb; [|done].
    eapply IH; [done|]. apply Forall_app. split; [done|].
    apply Forall_cons_2; [|apply Forall_nil_2]. by eapply row_of_binding_wf.
Qed.

Context `{Net}.

Lemma send_query_wf (text endpoint : string) (st st' : state) (rows : list row) :
  send_query text endpoint st = (Ok rows, st') → Forall dict_wf rows.
Proof.
  unfold send_query. intros Hrun.
  destruct (requests_get _ _) as [[r|e] w]; [|done].
  destruct (decide (status_code r ≠ 200%Z)); [done|].
  destruct (json_bindings r) as [bs|e]; [|done].
  injection Hrun as Hrun _. eapply rows_of_bindings_wf; [done|]. apply Forall_nil_2.
Qed.

Lemma page_loop_wf (fuel : nat) (query endpoint : string) (bar_counter : nat)
    (offset : N) (results rows : list row) (st st' : state) :
  page_loop fuel query endpoint bar_counter offset results st = Some (Ok rows, st') →
  Forall dict_wf results → Forall dict_wf rows.
Proof.
  revert bar_counter offset results st.
  induction fuel as [|fuel IH]; intros bar_counter offset results st Hrun Hres; [done|].
  rewrite page_loop_S in Hrun.
  destruct (send_query _ _ _) as [[new|e] st1] eqn:Hsend; [|done].
  apply send_query_wf in Hsend.
  assert (Forall dict_wf (results ++ new)) as Hall by (apply Forall_app; done).
  destruct (decide (N.of_nat (length new) ≠ limit)).
  - by injection Hrun as <- _.
  - by eapply IH.
Qed.

Lemma page_query_wf (fuel : nat) (query endpoint : string) (st st' : state)
    (rows : list row) :
  page_query fuel query endpoint st = Some (Ok rows, st') → Forall dict_wf rows.
Proof.
  unfold page_query. intros Hrun. eapply page_loop_wf; [done|]. apply Forall_nil_2.
Qed.

Lemma query_endpoints_wf (fuel : nat) (query : string) (endpoints : list string)
    (results rows : list row) (st st' : state) :
  query_endpoints fuel query endpoints results st = Some (Ok rows, st') →
  Forall dict_wf results → Forall dict_wf rows.
Proof.
  revert results st. induction endpoints as [|e endpoints IH]; intros results st Hrun Hres.
  - simpl in Hrun. by injection Hrun as <- _.
  - simpl in Hrun.
    destruct (page_query fuel query e st) as [[[new|x] st1]|] eqn:Hpage; [|done|done].
    apply page_query_wf in Hpage. eapply IH; [done|]. by apply Forall_app.
Qed.

(** X2: when every endpoint has answered, [query_sparql] returns, and what it
    returns are the rows the endpoints sent, each of them once: every row
    fetched has a representative in the result (the same items, whatever the
    order of the keys), every row of the result was fetched, and no two rows
    of the result have the same items. *)
Theorem query_sparql_rows_distinct (fuel : nat) (query : string) (st st1 st' : state)
    (endpoints : list string) (fetched : list row) :
  endpoints_of st = (Ok endpoints, st1) →
  query_endpoints fuel query endpoints [] st1 = Some (Ok fetched, st') →
  ∃ out : list row,
    query_sparql fuel query st = Some (Ok out, st') ∧
    (∀ r, r ∈ fetched → ∃ r', r' ∈ out ∧ dict_eq r r') ∧
    (∀ r', r' ∈ out → ∃ r, r ∈ fetched ∧ dict_eq r r') ∧
    (∀ (i j : nat) (r1 r2 : row),
       out !! i = Some r1 → out !! j = Some r2 → dict_eq r1 r2 → i = j).
Proof.
  intros Hends Hfetch.
  assert (Forall dict_wf fetched) as Hwf
    by (eapply query_endpoints_wf; [done|apply Forall_nil_2]).
  destruct (deduplicate_results_distinct fetched Hwf)
    as (out & Hrun & _ & Hcomplete & Hsound & Hdistinct).
  exists out. split; [|done].
  unfold query_sparql. by rewrite Hends, Hfetch, Hrun.
Qed.

End RowsFacts.

(** Three endpoints send the same row; the query returns it once. *)
Lemma query_sparql_rows_distinct_witness :
  let store := Doubles.routed_store Doubles.one_row Doubles.two_peers in
  let fetched : list Query.row :=
    replicate 3 [("subject", "http://example.org/part")] in
  ∃ (st' : @Query.state store) (out : list Query.row),
    @Query.query_sparql store 1 "SELECT ?s WHERE { ?s ?p ?o } "
      (@Query.State store Doubles.federated_config () [])
    = Some (Py.Ok out, st') ∧
    (∀ r, r ∈ fetched → ∃ r', r' ∈ out ∧ Py.dict_eq r r') ∧
    (∀ r', r' ∈ out → ∃ r, r ∈ fetched ∧ Py.dict_eq r r') ∧
    (∀ (i j : nat) (r1 r2 : Query.row),
       out !! i = Some r1 → out !! j = Some r2 → Py.dict_eq r1 r2 → i = j).
Proof.
  intros store fetched. eexists.
  eapply (@query_sparql_rows_distinct store 1 "SELECT ?s WHERE { ?s ?p ?o } "
            (@Query.State store Doubles.federated_config () [])).
  - vm_compute. reflexivity.
  - vm_compute. reflexivity.
Defined.

(** ** [query.py]: a query without federation *)

Section LocalFacts.
Import Py Query.
Context `{Net}.

Lemma emit_requests (ev : event) (st : state) :
  (∀ url, ev ≠ HttpGet url) →
  requests_of (trace (emit ev st)) = requests_of (trace st).
Proof.
  intros Hev. unfold emit. simpl. rewrite requests_of_app.
  destruct ev; simpl; try by rewrite app_nil_r. by destruct (Hev url).
Qed.

(** The requests of the paging loop, whatever its outcome. *)
Lemma page_loop_requests (fuel : nat) (query endpoint : string) (bar_counter : nat)
    (offset : N) (results : list row) (st st' : state) (r : result (list row)) :
  page_loop fuel query endpoint bar_counter offset results st = Some (r, st') →
  cfg st' = cfg st ∧
  ∃ n : nat, (0 < n ≤ fuel)%nat ∧
    requests_of (trace st')
    = (requests_of (trace st) ++
       ((λ i : nat, page_url (cfg st) endpoint
                      (full_query_at query (offset + N.of_nat i * limit)))
        <$> seq 0 n))%list.
Proof.
  revert bar_counter offset results st.
  induction fuel as [|fuel IH]; intros bc off results st Hrun; [done|].
  rewrite page_loop_S in Hrun.
  destruct (send_query _ _ _) as [[new|e] st1] eqn:Hsend.
  - apply send_query_trace in Hsend as [Hc Hr].
    rewrite emit_requests in Hr by done. simpl in Hc, Hr.
    destruct (decide (N.of_nat (length new) ≠ limit)).
    + injection Hrun as <- <-. split; [done|]. exists 1%nat. split; [lia|].
      rewrite Hr. simpl. by rewrite N.add_0_r.
    + apply IH in Hrun as (Hc' & n' & Hn' & Hr').
      split; [by rewrite Hc', Hc|]. exists (S n'). split; [lia|].
      rewrite Hr', Hr, Hc. rewrite <- app_assoc. simpl. rewrite N.add_0_r.
      do 2 f_equal. rewrite <- fmap_S_seq, <- list_fmap_compose.
      apply list_fmap_ext. intros i k _. simpl. do 2 f_equal. lia.
  - injection Hrun as <- <-. apply send_query_trace in Hsend as [Hc Hr].
    rewrite emit_requests in Hr by done. simpl in Hc, Hr.
    split; [done|]. exists 1%nat. split; [lia|].
    rewrite Hr. simpl. by rewrite N.add_0_r.
Qed.

(** X3: without federation [query_sparql] asks the configured endpoint and no
    other: whatever the outcome, its requests are the pages of the query,
    with its text as the caller gave it, at the offsets 0, 10000, 20000,
    ... and each with an empty [default-graph-uri] parameter. *)
Theorem query_sparql_local_only (fuel : nat) (query : string) (st st' : state)
    (r : result (list row)) :
  distributed_search (cfg st) = false →
  query_sparql fuel query st = Some (r, st') →
  ∃ n : nat, (0 < n ≤ fuel)%nat ∧
    requests_of (trace st')
    = (requests_of (trace st) ++
       ((λ i : nat,
           sparql_endpoint (cfg st) +:+
           urlencode [("query", query_prefix +:+ query +:+ "OFFSET "
                                +:+ str_of_N (N.of_nat i * 10000)
                                +:+ " LIMIT 10000");
                      ("default-graph-uri", "")])
        <$> seq 0 n))%list.
Proof.
  intros Hlocal Hrun. unfold query_sparql, endpoints_of in Hrun.
  rewrite Hlocal in Hrun. cbn [query_endpoints] in Hrun.
  destruct (page_query fuel query (sparql_endpoint (cfg st)) st)
    as [[rows st1]|] eqn:Hpage; [|done].
  unfold page_query in Hpage. cbn [cfg emit] in Hpage.
  destruct (decide (sparql_endpoint (cfg st) ≠ sparql_endpoint (cfg st))) as [Hne|_];
    [done|].
  apply page_loop_requests in Hpage as (Hc & n & Hn & Hr).
  rewrite emit_requests in Hr by done. cbn [cfg emit] in Hr.
  exists n. split; [done|].
  assert (requests_of (trace st') = requests_of (trace st1)) as ->.
  { destruct rows as [rows|e].
    - cbn in Hrun. by injection Hrun as _ <-.
    - injection Hrun as _ <-. by rewrite emit_requests. }
  rewrite Hr. f_equal. apply list_fmap_ext. intros i k _. simpl.
  unfold page_url, full_query_at.
  destruct (decide (sparql_endpoint (cfg st) = sparql_endpoint (cfg st))); [|done].
  done.
Qed.

End LocalFacts.

(** A store without rows, asked without federation: one request, to the
    configured endpoint. *)
Lemma query_sparql_local_only_witness :
  let store := Doubles.scripted_store Doubles.no_rows [] in
  let st : @Query.state store := @Query.State store Doubles.local_config 0%nat [] in
  ∃ (r : Py.result (list Query.row)) (st' : @Query.state store),
    @Query.query_sparql store 1 "SELECT ?s WHERE { ?s ?p ?o } " st = Some (r, st') ∧
    ∃ n : nat, (0 < n ≤ 1)%nat ∧
      Query.requests_of (Query.trace st')
      = (Query.requests_of (Query.trace st) ++
         ((λ i : nat,
             Query.sparql_endpoint (Query.cfg st) +:+
             Doubles.plain_urlencode
               [("query", Query.query_prefix +:+ "SELECT ?s WHERE { ?s ?p ?o } "
                          +:+ "OFFSET " +:+ Py.str_of_N (N.of_nat i * 10000)
                          +:+ " LIMIT 10000");
                ("default-graph-uri", "")])
          <$> seq 0 n))%list.
Proof.
  intros store st.
  assert (∃ x, @Query.query_sparql store 1 "SELECT ?s WHERE { ?s ?p ?o } " st = Some x)
    as [[r st'] Hrun].
  { eexists. vm_compute. reflexivity. }
  exists r, st'. split; [done|].
  exact (@query_sparql_local_only store 1 "SELECT ?s WHERE { ?s ?p ?o } " st st' r
           eq_refl Hrun).
Defined.

(** ** [query.py]: a query asked again *)

Section CacheFacts.
Import Py Query.


Context `{Net}.



End CacheFacts.


(** ** [query.py]: the text sent to a peer *)

Section SubFromFacts.
Import Py Query.

Lemma sub_from_go_skip (a b : string) :
  sub_from_go (String.length a) (a +:+ b) = sub_from_go 0 b.
Proof.
  induction a as [|x a IH]; [done|].
  rewrite string_app_cons. exact IH.
Qed.

Lemma prefix_FROM_other (c : ascii) (s : string) :
  c ≠ "F"%char → String.prefix "FROM" (String c s) = false.
Proof.
  intros Hc.
  change (String.prefix "FROM" (String c s))
    with (if ascii_dec "F" c then String.prefix "ROM" s else false).
  destruct (ascii_dec "F" c) as [Heq|]; [by destruct Hc|done].
Qed.

Lemma sub_from_go_keep (a b : string) :
  mentions "F" a = false → sub_from_go 0 (a +:+ b) = a +:+ sub_from_go 0 b.
Proof.
  induction a as [|x a IH]; [done|]. cbn [mentions]. intros Ha.
  apply orb_false_iff in Ha as [Hx Ha]. apply bool_decide_eq_false in Hx.
  rewrite !string_app_cons. cbn [sub_from_go]. unfold from_match.
  rewrite prefix_FROM_other by done. f_equal. by apply IH.
Qed.

Lemma line_end_app (g b : string) :
  mentions LF g = false → line_end (g +:+ String LF b) = Some (S (String.length g)).
Proof.
  induction g as [|x g IH]; cbn [mentions]; intros Hg.
  - rewrite string_app_nil. cbn [line_end]. destruct (decide (LF = LF)); done.
  - apply orb_false_iff in Hg as [Hx Hg]. apply bool_decide_eq_false in Hx.
    rewrite string_app_cons. cbn [line_end String.length].
    destruct (decide (x = LF)); [done|]. by rewrite IH.
Qed.

Lemma line_end_None (s : string) : mentions LF s = false → line_end s = None.
Proof.
  induction s as [|x s IH]; [done|]. cbn [mentions line_end]. intros Hs.
  apply orb_false_iff in Hs as [Hx Hs]. apply bool_decide_eq_false in Hx.
  destruct (decide (x = LF)); [done|]. by rewrite IH.
Qed.

Lemma sub_from_go_line (g b : string) :
  mentions LF g = false →
  sub_from_go 0 ("FROM" +:+ g +:+ String LF b) = sub_from_go 0 b.
Proof.
  intros Hg.
  change ("FROM" +:+ g +:+ String LF b)
    with (String "F" ("ROM" +:+ g +:+ String LF b)).
  cbn [sub_from_go].
  assert (from_match (String "F" ("ROM" +:+ g +:+ String LF b))
          = Some (S (String.length (("ROM" +:+ g) +:+ String LF "")))) as ->.
  { unfold from_match.
    change (String "F" ("ROM" +:+ g +:+ String LF b))
      with (("FROM" +:+ g) +:+ String LF b) at 2.
    rewrite line_end_app by done.
    assert (String.prefix "FROM" (String "F" ("ROM" +:+ g +:+ String LF b)) = true)
      as -> by (rewrite !string_app_cons, string_app_nil;
                by destruct (g +:+ String LF b)).
    rewrite !string_app_length. simpl. f_equal. lia. }
  rewrite Nat.sub_succ, Nat.sub_0_r.
  rewrite <- (sub_from_go_skip (("ROM" +:+ g) +:+ String LF "") b).
  f_equal. by rewrite !string_app_assoc.
Qed.

(** X5: the first [FROM] of a query is removed together with the rest of its
    line: for a text [a] without the letter [F] and a rest of line [g],
    the text [a FROM g], a line feed, [b] becomes [a] followed by what
    becomes of [b]. *)
Theorem sub_from_strips_from_line (a g b : string) :
  mentions "F" a = false →
  mentions LF g = false →
  sub_from (a +:+ "FROM" +:+ g +:+ String LF b) = a +:+ sub_from b.
Proof.
  intros Ha Hg. unfold sub_from.
  rewrite sub_from_go_keep by done. f_equal. by apply sub_from_go_line.
Qed.

Lemma sub_from_strips_from_line_witness :
  sub_from ("SELECT ?s " +:+ "FROM" +:+ " <http://example.org/graph>"
              +:+ String LF "WHERE { ?s ?p ?o } ")
  = "SELECT ?s " +:+ sub_from "WHERE { ?s ?p ?o } ".
Proof.
  apply (sub_from_strips_from_line "SELECT ?s " " <http://example.org/graph>"
           "WHERE { ?s ?p ?o } "); reflexivity.
Defined.

(** X6: a query written on one line, without a line feed, keeps its [FROM]
    clause: what is sent to a peer is the text as the caller gave it. *)
Theorem sub_from_single_line (query : string) :
  mentions LF query = false → sub_from query = query.
Proof.
  unfold sub_from. induction query as [|x query IH]; [done|].
  intros Hq. cbn [sub_from_go]. unfold from_match.
  rewrite (line_end_None _ Hq). destruct (String.prefix _ _).
  all: cbn [mentions] in Hq; apply orb_false_iff in Hq as [_ Hq]; by rewrite IH.
Qed.

Lemma sub_from_single_line_witness :
  sub_from "SELECT ?s FROM <http://example.org/graph> WHERE { ?s ?p ?o }"
  = "SELECT ?s FROM <http://example.org/graph> WHERE { ?s ?p ?o }".
Proof.
  apply (sub_from_single_line
           "SELECT ?s FROM <http://example.org/graph> WHERE { ?s ?p ?o }").
  reflexivity.
Defined.

End SubFromFacts.

(** ** [query.py]: the canned query at a peer *)

Section QueryPartsFacts.
Import Py Query.

Lemma mentions_app (c : ascii) (a b : string) :
  mentions c (a +:+ b) = mentions c a || mentions c b.
Proof.
  induction a as [|x a IH]; [done|].
  rewrite string_app_cons. cbn [mentions]. by rewrite IH, orb_assoc.
Qed.

Lemma sub_from_go_plain (s : string) :
  mentions "F" s = false → sub_from_go 0 s = s.
Proof.
  induction s as [|x s IH]; [done|]. cbn [mentions]. intros Hs.
  apply orb_false_iff in Hs as [Hx Hs]. apply bool_decide_eq_false in Hx.
  cbn [sub_from_go]. unfold from_match.
  rewrite prefix_FROM_other by done. f_equal. by apply IH.
Qed.

Lemma parts_query_paged_text (c : config) (endpoint g criteria : string)
    (indexing : bool) :
  endpoint ≠ sparql_endpoint c →
  mentions LF g = false →
  mentions "F" criteria = false →
  paged_text c (parts_query ("FROM" +:+ g) criteria indexing) endpoint
  = parts_select +:+ "    WHERE {
    " +:+ criteria +:+ parts_subject
      +:+ (if indexing then parts_graph else "") +:+ parts_optional.
Proof.
  intros Hpeer Hg Hcrit. unfold paged_text.
  destruct (decide (endpoint ≠ sparql_endpoint c)) as [_|Hn]; [|by destruct Hn].
  unfold parts_query, sub_from.
  change parts_where with (String LF "    WHERE {
    ").
  rewrite (string_app_assoc "FROM" g), (string_app_cons LF).
  rewrite sub_from_go_keep by reflexivity.
  rewrite sub_from_go_line by done.
  rewrite sub_from_go_plain; [done|].
  rewrite !mentions_app, Hcrit. by destruct indexing.
Qed.

Context `{Net}.

(** X7: the canned query of [query_parts] with a graph restriction [FROM g]:
    at a peer [page_query] pages through the query without the restriction,
    everything else in place; at the configured endpoint it pages through
    the query as it is. *)
Theorem query_parts_peer_text (fuel : nat) (st : state)
    (endpoint g criteria : string) (indexing : bool) :
  endpoint ≠ sparql_endpoint (cfg st) →
  mentions LF g = false →
  mentions "F" criteria = false →
  page_query fuel (parts_query ("FROM" +:+ g) criteria indexing) endpoint st
  = page_loop fuel
      (parts_select +:+ "    WHERE {
    " +:+ criteria +:+ parts_subject
        +:+ (if indexing then parts_graph else "") +:+ parts_optional)
      endpoint 0 0 [] (emit (Log ("Current endpoint: " +:+ endpoint)) st) ∧
  page_query fuel (parts_query ("FROM" +:+ g) criteria indexing)
    (sparql_endpoint (cfg st)) st
  = page_loop fuel (parts_query ("FROM" +:+ g) criteria indexing)
      (sparql_endpoint (cfg st)) 0 0 []
      (emit (Log ("Current endpoint: " +:+ sparql_endpoint (cfg st))) st).
Proof.
  intros Hpeer Hg Hcrit. split.
  - change (page_query fuel (parts_query ("FROM" +:+ g) criteria indexing) endpoint st)
      with (page_loop fuel
              (paged_text (cfg st) (parts_query ("FROM" +:+ g) criteria indexing)
                 endpoint)
              endpoint 0 0 [] (emit (Log ("Current endpoint: " +:+ endpoint)) st)).
    by rewrite parts_query_paged_text.
  - unfold page_query. cbn [cfg emit].
    destruct (decide (sparql_endpoint (cfg st) ≠ sparql_endpoint (cfg st))); done.
Qed.

End QueryPartsFacts.

Lemma query_parts_peer_text_witness :
  let store := Doubles.routed_store Doubles.one_row Doubles.two_peers in
  let st : @Query.state store := @Query.State store Doubles.federated_config () [] in
  let text := Query.parts_query ("FROM" +:+ " <http://example.org/public>") "" true in
  @Query.page_query store 1 text "http://peer1.example/sparql?" st
  = @Query.page_loop store 1
      (Query.parts_select +:+ "    WHERE {
    " +:+ "" +:+ Query.parts_subject +:+ Query.parts_graph +:+ Query.parts_optional)
      "http://peer1.example/sparql?" 0 0 []
      (Query.emit (Query.Log ("Current endpoint: " +:+ "http://peer1.example/sparql?")) st) ∧
  @Query.page_query store 1 text (Query.sparql_endpoint (Query.cfg st)) st
  = @Query.page_loop store 1 text (Query.sparql_endpoint (Query.cfg st)) 0 0 []
      (Query.emit (Query.Log ("Current endpoint: "
                              +:+ Query.sparql_endpoint (Query.cfg st))) st).
Proof.
  intros store st text.
  apply (@query_parts_peer_text store 1 st
           "http://peer1.example/sparql?" " <http://example.org/public>" "" true).
  - intros Heq. vm_compute in Heq. discriminate.
  - reflexivity.
  - reflexivity.
Defined.

(** ** [query.py]: from bindings to rows *)

Section BindingFacts.
Import Py Query.

Lemma row_of_binding_loop_values (b : binding) (acc : row) :
  dict_wf b →
  (∀ k, k ∈ dict_keys b → k ∉ dict_keys acc) →
  for_each (λ (res : row) (kv : string * option string),
              match kv.2 with
              | Some v => Ok (dict_set kv.1 v res)
              | None => Raised (KeyError "value")
              end) b acc
  = match binding_values b with
    | Some r => Ok (acc ++ r)%list
    | None => Raised (KeyError "value")
    end.
Proof.
  revert acc. induction b as [|[k [v|]] b IH]; intros acc Hwf Hfresh.
  - simpl. by rewrite app_nil_r.
  - apply NoDup_cons in Hwf as [Hk Hwf].
    cbn [for_each fst snd result_bind].
    rewrite dict_set_new by (apply Hfresh; left).
    rewrite IH; [|done|].
    + unfold binding_values. cbn [mapM]. simpl.
      destruct (mapM _ b) as [r|]; simpl; [|done]. by rewrite <- app_assoc.
    + intros k' Hk'. unfold dict_keys. rewrite fmap_app, elem_of_app.
      intros [Hin| ->%list_elem_of_singleton]; [|done].
      eapply Hfresh; [|exact Hin]. by right.
  - done.
Qed.

Lemma row_of_binding_values (b : binding) :
  dict_wf b →
  row_of_binding b
  = match binding_values b with
    | Some r => Ok r
    | None => Raised (KeyError "value")
    end.
Proof.
  intros Hwf. unfold row_of_binding.
  rewrite row_of_binding_loop_values; [done|done|].
  intros k _ Hk. by apply elem_of_nil in Hk.
Qed.

Lemma rows_of_bindings_values (bs : list binding) (acc : list row) :
  Forall dict_wf bs →
  rows_of_bindings bs acc
  = match mapM binding_values bs with
    | Some rows => Ok (acc ++ rows)%list
    | None => Raised (KeyError "value")
    end.
Proof.
  intros Hwf. revert acc. induction Hwf as [|b bs Hb Hbs IH]; intros acc.
  - simpl. by rewrite app_nil_r.
  - cbn [rows_of_bindings mapM]. rewrite row_of_binding_values by done.
    destruct (binding_values b) as [r|]; simpl; [|done].
    rewrite IH. destruct (mapM binding_values bs) as [rows|]; simpl; [|done].
    by rewrite <- app_assoc.
Qed.

Context `{Net}.

(** X8: an answer with status 200 becomes rows binding by binding: each row has
    the variables of its binding, in their order, with the content of their
    ["value"] members; there are as many rows as bindings, in the same
    order.  One variable without a ["value"] member anywhere in the
    document and the call raises [KeyError] and returns no row. *)
Theorem send_query_rows (text endpoint : string) (st : state)
    (resp : response) (w : world) (bs : list binding) :
  requests_get (page_url (cfg st) endpoint text) (net st) = (Ok resp, w) →
  status_code resp = 200%Z →
  json_bindings resp = Ok bs →
  Forall dict_wf bs →
  (send_query text endpoint st).1
  = match mapM binding_values bs with
    | Some rows => Ok rows
    | None => Raised (KeyError "value")
    end.
Proof.
  intros Hget Hstatus Hjson Hwf. unfold send_query.
  fold (page_url (cfg st) endpoint text). rewrite Hget.
  destruct (decide (status_code resp ≠ 200%Z)); [done|].
  rewrite Hjson. cbn [fst]. by rewrite rows_of_bindings_values.
Qed.

End BindingFacts.

Lemma send_query_rows_witness :
  let store := Doubles.routed_store Doubles.one_row [] in
  (@Query.send_query store "SELECT ?subject WHERE { ?subject ?p ?o } "
     "http://localhost:8890/sparql?"
     (@Query.State store Doubles.local_config () [])).1
  = Py.Ok [[("subject", "http://example.org/part")]].
Proof.
  intros store.
  apply (@send_query_rows store "SELECT ?subject WHERE { ?subject ?p ?o } "
           "http://localhost:8890/sparql?"
           (@Query.State store Doubles.local_config () [])
           (Doubles.page_of 1) ()
           [[("subject", Some "http://example.org/part")]]).
  - reflexivity.
  - reflexivity.
  - reflexivity.
  - apply Forall_cons_2; [|apply Forall_nil_2].
    apply (bool_decide_unpack _). by vm_compute.
Defined.

(** ** [cluster.py]: what the readers of the report return *)

Section ReportFacts.
Import Py Cluster.

Lemma for_each_raises {A S} (body : S → A → result S) (E : exn)
    (xs : list A) (x : A) (s : S) :
  (∀ s a e, body s a = Raised e → e = E) →
  x ∈ xs → (∀ s, body s x = Raised E) →
  for_each body xs s = Raised E.
Proof.
  intros Honly Hin Hx. revert s.
  induction xs as [|a xs IH]; intros s; [by apply elem_of_nil in Hin|].
  cbn [for_each]. destruct (body s a) as [s'|e] eqn:Hbody.
  - cbn [result_bind]. apply elem_of_cons in Hin as [->|Hin]; [|by apply IH].
    by rewrite Hx in Hbody.
  - cbn [result_bind]. f_equal. by eapply Honly.
Qed.

Lemma for_each_not_ok {A S} (body : S → A → result S)
    (xs : list A) (x : A) (s : S) :
  x ∈ xs → (∀ s, is_ok (body s x) = false) →
  is_ok (for_each body xs s) = false.
Proof.
  intros Hin Hx. revert s.
  induction xs as [|a xs IH]; intros s; [by apply elem_of_nil in Hin|].
  cbn [for_each]. destruct (body s a) as [s'|e] eqn:Hbody; [|done].
  cbn [result_bind]. apply elem_of_cons in Hin as [->|Hin]; [|by apply IH].
  specialize (Hx s). by rewrite Hbody in Hx.
Qed.

Lemma index_only_IndexError {A} (xs : list A) (i : nat) (e : exn) :
  index xs i = Raised e → e = IndexError.
Proof.
  destruct (xs !! i) as [x|] eqn:Hx.
  - by rewrite (index_lookup _ _ _ Hx).
  - rewrite (index_Raised _ _ Hx). by intros [= <-].
Qed.

Lemma uris_line_only_IndexError (uris : gset string) (line : string) (e : exn) :
  uris_line uris line = Raised e → e = IndexError.
Proof.
  unfold uris_line.
  destruct (index (split line) 0) as [r|e0] eqn:H0; cbn [result_bind].
  - destruct (is_H r); [|done].
    destruct (index (split line) 9) as [p|e9] eqn:H9; cbn [result_bind]; [done|].
    intros [= <-]. by eapply index_only_IndexError.
  - intros [= <-]. by eapply index_only_IndexError.
Qed.

Lemma cluster_line_only_IndexError (d : dict (gset string)) (line : string) (e : exn) :
  cluster_line d line = Raised e → e = IndexError.
Proof.
  unfold cluster_line.
  destruct (index (split line) 0) as [r|e0] eqn:H0; cbn [result_bind].
  - destruct (is_H r || is_S r); [|done].
    destruct (index (split line) 8) as [p|e8] eqn:H8; cbn [result_bind].
    + destruct (index (split line) 1) as [c|e1] eqn:H1; cbn [result_bind]; [done|].
      intros [= <-]. by eapply index_only_IndexError.
    + intros [= <-]. by eapply index_only_IndexError.
  - intros [= <-]. by eapply index_only_IndexError.
Qed.

Lemma uris_line_step (uris : gset string) (line : string) :
  uris_readable line →
  uris_line uris line = Ok (uris ∪ list_to_set (hit_targets [line])).
Proof.
  intros [[r Hr] H9]. unfold uris_line, hit_targets, hit in *. unfold field in *.
  rewrite (index_lookup _ _ _ Hr). cbn [result_bind omap list_omap].
  rewrite Hr in *. unfold is_H.
  destruct (decide (r = "H")) as [->|Hne].
  - rewrite bool_decide_eq_true_2 by done.
    rewrite bool_decide_eq_true_2 in H9 |- * by done.
    destruct H9 as [p Hp]; [done|].
    rewrite (index_lookup _ _ _ Hp), Hp. cbn [result_bind list_to_set].
    f_equal. by rewrite (right_id_L ∅ (∪)).
  - rewrite bool_decide_eq_false_2 by done.
    rewrite bool_decide_eq_false_2 by congruence.
    cbn [list_to_set]. f_equal. by rewrite (right_id_L ∅ (∪)).
Qed.

Lemma hit_targets_cons (line : string) (lines : list string) :
  hit_targets (line :: lines) = (hit_targets [line] ++ hit_targets lines)%list.
Proof.
  unfold hit_targets. cbn [omap list_omap].
  by destruct (if hit line then field 9 line else None).
Qed.

Lemma uris_loop (lines : list string) (uris : gset string) :
  Forall uris_readable lines →
  for_each uris_line lines uris = Ok (uris ∪ list_to_set (hit_targets lines)).
Proof.
  intros Hall. revert uris. induction Hall as [|line lines Hline Hall IH]; intros uris.
  - cbn. f_equal. by rewrite (right_id_L ∅ (∪)).
  - cbn [for_each]. rewrite uris_line_step by done. cbn [result_bind].
    rewrite IH, (hit_targets_cons line lines), list_to_set_app_L. f_equal.
    by rewrite (assoc_L (∪)).
Qed.

(** X9: for a report whose lines all have a first field, and whose [H] lines
    all have a field 9, [uclust2uris] returns the fields 9 of the [H] lines
    and nothing else. *)
Theorem uclust2uris_hit_targets (results : string) :
  Forall uris_readable (splitlines results) →
  uclust2uris results = Ok (list_to_set (hit_targets (splitlines results))).
Proof.
  intros Hall. unfold uclust2uris. rewrite uris_loop by done.
  f_equal. by rewrite (left_id_L ∅ (∪)).
Qed.

(** X10: a line without a field, an empty one or one of blanks only, anywhere
    in the report: [uclust2uris] and [uclust2clusters] raise [IndexError],
    and [analyze_uclust] does not return either. *)
Theorem report_blank_line_raises (results line : string) :
  line ∈ splitlines results →
  split line = [] →
  uclust2uris results = Raised IndexError ∧
  uclust2clusters results = Raised IndexError ∧
  ∀ float_of_str : string → result float,
    is_ok (analyze_uclust float_of_str results) = false.
Proof.
  intros Hin Hblank. split; [|split].
  - unfold uclust2uris. apply (for_each_raises _ _ _ line); [|done|].
    + intros s a e. apply uris_line_only_IndexError.
    + intros s. unfold uris_line. by rewrite Hblank.
  - unfold uclust2clusters, populate.
    rewrite (for_each_raises _ IndexError _ line); [done| |done|].
    + intros s a e. apply cluster_line_only_IndexError.
    + intros s. unfold cluster_line. by rewrite Hblank.
  - intros float_of_str. unfold analyze_uclust.
    destruct (for_each _ _ _) as [t|e] eqn:Hrun; [|done].
    assert (is_ok (for_each (analyze_line float_of_str) (splitlines results)
                     (Tally 0 0%float 0)) = false) as Hno.
    { apply (for_each_not_ok _ _ line); [done|].
      intros s. unfold analyze_line. by rewrite Hblank. }
    by rewrite Hrun in Hno.
Qed.

End ReportFacts.

Lemma two_part_report_readable :
  Forall Cluster.uris_readable (Py.splitlines Doubles.two_part_report).
Proof.
  assert (Py.splitlines Doubles.two_part_report
          = ["S 0 120 * * * * * p1 *"; "H 0 118 97.5 + 0 0 118M2I p2 p1";
             "C 0 2 * * * * * p1 *"]) as -> by reflexivity.
  repeat (apply Forall_cons; split); try (by apply Forall_nil).
  all: unfold Cluster.uris_readable; split; [by eexists|].
  all: intros Hh; vm_compute in Hh; try done.
Qed.

(** The one hit of the two-part report has the target [p1]. *)
Lemma uclust2uris_hit_targets_witness :
  Cluster.uclust2uris Doubles.two_part_report
  = Py.Ok (list_to_set (Cluster.hit_targets (Py.splitlines Doubles.two_part_report))).
Proof.
  apply (uclust2uris_hit_targets Doubles.two_part_report).
  apply two_part_report_readable.
Defined.

Lemma report_blank_line_raises_witness :
  Cluster.uclust2uris Doubles.blank_line_report = Py.Raised Py.IndexError ∧
  Cluster.uclust2clusters Doubles.blank_line_report = Py.Raised Py.IndexError ∧
  ∀ float_of_str : string → Py.result float,
    Py.is_ok (Cluster.analyze_uclust float_of_str Doubles.blank_line_report) = false.
Proof.
  apply (report_blank_line_raises Doubles.blank_line_report "").
  - assert (Py.splitlines Doubles.blank_line_report
            = ["S 0 120 * * * * * p1 *"; ""; "H 0 118 97.5 + 0 0 118M2I p2 p1"])
      as -> by reflexivity.
    apply elem_of_cons. right. apply elem_of_cons. by left.
  - reflexivity.
Defined.

(** ** [cluster.py]: who is in whose cluster *)

Section MembersFacts.
Import Py Cluster.



End MembersFacts.


(** ** [sequencesearch.py]: what reaches the command line *)

Section CommandLineFacts.
Import Py SequenceSearch.
Context `{Tool}.

(** An argument list the module may build for the tool [binary]. *)
Lemma run_searches_shape (binary : string)
    (calls : list (dict string * string)) (st : state) :
  vsearch_binary_filename (platform st) = Some binary →
  flags_invariant (flags st) →
  (∀ args, args ∈ invocations (trace st) →
     ∃ fileName,
       args = exact_base_args binary fileName ∨
       ∃ fl : dict string,
         dict_keys fl = default_flag_names ∧
         args = (global_base_args binary fileName ++ flag_args fl)%list) →
  ∀ args, args ∈ invocations (trace (run_searches calls st)) →
    ∃ fileName,
      args = exact_base_args binary fileName ∨
      ∃ fl : dict string,
        dict_keys fl = default_flag_names ∧
        args = (global_base_args binary fileName ++ flag_args fl)%list.
Proof.
  revert st. induction calls as [|[u fileName] calls IH]; intros st Hb Hinv Hshape;
    [done|].
  cbn [run_searches].
  destruct (sequence_search_state u fileName st) as (Hp & Hf & Htr).
  apply IH.
  - by rewrite Hp.
  - by apply flags_invariant_step.
  - intros args. rewrite Htr, Hb, elem_of_app, list_elem_of_singleton.
    intros [Hold| ->]; [by apply Hshape|].
    exists fileName. destruct Hinv as [Hex Hgl].
    destruct (dict_mem "search_exact" u).
    + left. cbn [add_exact_flags exactFlags]. rewrite Hex, override_flags_nil.
      apply append_flags_to_args_nil.
    + right. exists (override_flags u (globalFlags (flags st))).
      assert (dict_keys (override_flags u (globalFlags (flags st)))
              = default_flag_names) as Hk by by rewrite override_flags_keys.
      split; [done|]. cbn [add_global_flags globalFlags].
      apply append_flags_to_args_wf. unfold dict_wf. rewrite Hk.
      apply (bool_decide_unpack _). by vm_compute.
Qed.

(** X12: whatever the callers pass in a process, the tool is only ever started
    in two ways: for an exact search with the eight fixed arguments and no
    flag, or for a global search with the eight fixed arguments followed by
    the six flags of the module, each with one value.  A flag name of a
    caller never reaches the command line. *)
Theorem invocations_only_default_flags (calls : list (dict string * string))
    (p binary : string) (files0 : gmap string string) (args : list string) :
  vsearch_binary_filename p = Some binary →
  args ∈ invocations (trace (run_searches calls (initial_state p files0))) →
  ∃ fileName,
    args = [binary; "--search_exact"; fileName; "--db"; "usearch/sequences.fsa";
            "--uc"; drop_last 4 fileName +:+ ".uc"; "--uc_allhits"] ∨
    ∃ v1 v2 v3 v4 v5 v6 : string,
      args = [binary; "--usearch_global"; fileName; "--db"; "usearch/sequences.fsa";
              "--uc"; drop_last 4 fileName +:+ ".uc"; "--uc_allhits";
              "--maxaccepts"; v1; "--id"; v2; "--iddef"; v3; "--maxrejects"; v4;
              "--maxseqlength"; v5; "--minseqlength"; v6].
Proof.
  intros Hb Hin.
  destruct (run_searches_shape binary calls (initial_state p files0) Hb
              flags_invariant_initial) with (args := args)
    as (fileName & [->|(fl & Hk & ->)]); [|done| |].
  - intros a Ha. by apply elem_of_nil in Ha.
  - exists fileName. by left.
  - exists fileName. right.
    destruct fl as [|[k1 v1] [|[k2 v2] [|[k3 v3] [|[k4 v4] [|[k5 v5]
      [|[k6 v6] [|? ?]]]]]]]; try done.
    injection Hk as -> -> -> -> -> ->. by exists v1, v2, v3, v4, v5, v6.
Qed.

(** X13: on a platform the module does not know, no call starts the tool: each
    one raises [NameError] and leaves the files as they were. *)
Theorem sequence_search_unsupported_platform
    (calls : list (dict string * string)) (p : string)
    (files0 : gmap string string) (userFlags : dict string) (fileName : string) :
  vsearch_binary_filename p = None →
  let st := run_searches calls (initial_state p files0) in
  (sequence_search userFlags fileName st).1
  = Raised (NameError "vsearch_binary_filename") ∧
  invocations (trace (sequence_search userFlags fileName st).2) = [] ∧
  files (sequence_search userFlags fileName st).2 = files0.
Proof.
  intros Hp.
  assert (∀ (u : dict string) (f : string) (st : state),
            platform st = p →
            (sequence_search u f st).1 = Raised (NameError "vsearch_binary_filename") ∧
            invocations (trace (sequence_search u f st).2) = invocations (trace st) ∧
            files (sequence_search u f st).2 = files st ∧
            platform (sequence_search u f st).2 = p) as Hstep.
  { intros u f st Hst.
    unfold sequence_search, run_vsearch_exact, run_vsearch_global, emit. simpl.
    destruct (dict_mem "search_exact" u); simpl; rewrite Hst, Hp; simpl;
      rewrite invocations_app; simpl; by rewrite app_nil_r. }
  assert (∀ st, platform st = p →
            invocations (trace (run_searches calls st)) = invocations (trace st) ∧
            files (run_searches calls st) = files st ∧
            platform (run_searches calls st) = p) as Hrun.
  { induction calls as [|[u f] calls IH]; intros st Hst; [done|].
    cbn [run_searches]. destruct (Hstep u f st Hst) as (_ & Htr & Hfi & Hpl).
    destruct (IH _ Hpl) as (-> & -> & ->). done. }
  intros st. destruct (Hrun (initial_state p files0) eq_refl) as (Htr & Hfi & Hpl).
  fold st in Htr, Hfi, Hpl.
  destruct (Hstep userFlags fileName st Hpl) as (-> & -> & -> & _).
  by rewrite Htr, Hfi.
Qed.

End CommandLineFacts.

Lemma invocations_only_default_flags_witness :
  let args := ["usearch/vsearch_linux"; "--usearch_global"; "/tmp/q.fsa"; "--db";
               "usearch/sequences.fsa"; "--uc"; "/tmp/q.uc"; "--uc_allhits";
               "--maxaccepts"; "50"; "--id"; "0.8"; "--iddef"; "2";
               "--maxrejects"; "0"; "--maxseqlength"; "5000";
               "--minseqlength"; "20"] in
  ∃ fileName,
    args = ["usearch/vsearch_linux"; "--search_exact"; fileName; "--db";
            "usearch/sequences.fsa"; "--uc"; Py.drop_last 4 fileName +:+ ".uc";
            "--uc_allhits"] ∨
    ∃ v1 v2 v3 v4 v5 v6 : string,
      args = ["usearch/vsearch_linux"; "--usearch_global"; fileName; "--db";
              "usearch/sequences.fsa"; "--uc"; Py.drop_last 4 fileName +:+ ".uc";
              "--uc_allhits";
              "--maxaccepts"; v1; "--id"; v2; "--iddef"; v3; "--maxrejects"; v4;
              "--maxseqlength"; v5; "--minseqlength"; v6].
Proof.
  intros args.
  apply (@invocations_only_default_flags Doubles.silent_tool
           [([("threads", "64"); ("--db", "/etc/passwd")], "/tmp/q.fsa")]
           "linux" "usearch/vsearch_linux" ∅ args).
  - reflexivity.
  - apply list_elem_of_singleton. reflexivity.
Defined.

Lemma sequence_search_unsupported_platform_witness :
  let st := @SequenceSearch.run_searches Doubles.silent_tool
              [([("id", "0.9")], "/tmp/a.fsa")]
              (SequenceSearch.initial_state "win32" ∅) in
  (@SequenceSearch.sequence_search Doubles.silent_tool [] "/tmp/q.fsa" st).1
  = Py.Raised (Py.NameError "vsearch_binary_filename") ∧
  SequenceSearch.invocations
    (SequenceSearch.trace
       (@SequenceSearch.sequence_search Doubles.silent_tool [] "/tmp/q.fsa" st).2) = [] ∧
  SequenceSearch.files
    (@SequenceSearch.sequence_search Doubles.silent_tool [] "/tmp/q.fsa" st).2 = ∅.
Proof.
  apply (@sequence_search_unsupported_platform Doubles.silent_tool
           [([("id", "0.9")], "/tmp/a.fsa")] "win32" ∅ [] "/tmp/q.fsa").
  reflexivity.
Defined.

(** ** [explorer.py]: the schedule behind [/cron] *)

Section CronFacts.
Import Py Explorer.

Lemma serve_cron_step (req : request) (st : state) :
  cron (serve_cron req st).2 = default (cron st) (posted_cron req) ∧
  (status (serve_cron req st).1 = 200%Z ↔ is_Some (posted_cron req)) ∧
  (status (serve_cron req st).1 = 200%Z ∨ status (serve_cron req st).1 = 500%Z).
Proof.
  destruct req as [[|] json]; unfold serve_cron, update_cron_tab, posted_cron;
    cbn [req_method req_json].
  - rewrite get_cron_unbound. cbn. split; [done|]. split; [|by right].
    split; [done|]. by intros [? ?].
  - destruct json as [params|]; cbn.
    + destruct (dict_get "cron" params) as [c|]; cbn.
      * split; [done|]. split; [|by left]. split; [by eexists|done].
      * split; [done|]. split; [|by right]. split; [done|]. by intros [? ?].
    + split; [done|]. split; [|by right]. split; [done|]. by intros [? ?].
Qed.

Lemma serve_crons_cons (req : request) (reqs : list request) (st : state) :
  serve_crons (req :: reqs) st
  = ((serve_cron req st).1 :: (serve_crons reqs (serve_cron req st).2).1,
     (serve_crons reqs (serve_cron req st).2).2).
Proof.
  cbn [serve_crons]. destruct (serve_cron req st) as [resp st1]. cbn [fst snd].
  by destruct (serve_crons reqs st1).
Qed.

(** X15: over any sequence of requests to [/cron]: the schedule kept at the end
    is the one of the last [POST] that carried a [cron] member, or the one
    kept at the start if there was none; every request is answered, with
    200 or with 500, and with 200 exactly when it is such a [POST].  No
    [GET] is answered with 200. *)
Theorem serve_crons_schedule (reqs : list request) (st : state) :
  cron (serve_crons reqs st).2 = last_posted reqs (cron st) ∧
  length (serve_crons reqs st).1 = length reqs ∧
  ∀ (i : nat) (req : request) (resp : http_response),
    reqs !! i = Some req → (serve_crons reqs st).1 !! i = Some resp →
    (status resp = 200%Z ∨ status resp = 500%Z) ∧
    (status resp = 200%Z ↔ is_Some (posted_cron req)) ∧
    (req_method req = GET → status resp = 500%Z).
Proof.
  revert st. induction reqs as [|req reqs IH]; intros st.
  - split; [done|]. split; [done|]. intros i req resp Hi. done.
  - rewrite serve_crons_cons. cbn [fst snd].
    destruct (serve_cron_step req st) as (Hc & Hiff & Hcode).
    destruct (IH (serve_cron req st).2) as (Hlast & Hlen & Hall).
    split; [|split].
    + rewrite Hlast, Hc. done.
    + cbn [length]. by rewrite Hlen.
    + intros [|i] req' resp Hreq Hresp.
      * injection Hreq as <-. injection Hresp as <-.
        split; [done|]. split; [done|].
        intros Hget. destruct Hcode as [H200|H500]; [|done].
        apply Hiff in H200 as [c Hposted].
        unfold posted_cron in Hposted. by rewrite Hget in Hposted.
      * by eapply Hall.
Qed.

End CronFacts.

(** ** [sequencesearch.py]: what a search returns *)

Section SearchResultFacts.
Import Py SequenceSearch.
Context `{Tool}.

(** X14: when the tool has run, [sequence_search] returns what the report says
    that the tool left beside the query file, at the name of the query file
    with its last four characters replaced by [.uc]: the targets of its hit
    lines. *)
Theorem sequence_search_returns_hit_targets (userFlags : dict string)
    (fileName : string) (st : state) (binary output report : string)
    (files' : gmap string string) :
  vsearch_binary_filename (platform st) = Some binary →
  popen (search_args binary userFlags fileName (flags st)) (files st)
  = Ok (output, files') →
  files' !! (drop_last 4 fileName +:+ ".uc") = Some report →
  Forall Cluster.uris_readable (splitlines report) →
  (sequence_search userFlags fileName st).1
  = Ok (list_to_set (Cluster.hit_targets (splitlines report))) ∧
  files (sequence_search userFlags fileName st).2 = files'.
Proof.
  intros Hb Hpopen Hreport Hreadable.
  unfold sequence_search, run_vsearch_exact, run_vsearch_global, run_tool, emit.
  unfold search_args in Hpopen. cbn [platform flags files trace].
  destruct (dict_mem "search_exact" userFlags); cbn [platform flags files trace];
    rewrite Hb; cbn [platform flags files trace];
    fold (exact_base_args binary fileName); fold (global_base_args binary fileName);
    rewrite Hpopen; cbn [platform flags files trace fst snd];
    unfold read_uris; cbn [files]; rewrite Hreport;
    (split; [|done]); unfold Cluster.uclust2uris;
    rewrite uris_loop by done; f_equal; by rewrite (left_id_L ∅ (∪)).
Qed.

End SearchResultFacts.

(** A global search with a tool that leaves the two-part report: the
    search returns the target of its one hit. *)
Lemma sequence_search_returns_hit_targets_witness :
  let tool := Doubles.reporting_tool Doubles.two_part_report in
  let st := SequenceSearch.initial_state "linux" ∅ in
  (@SequenceSearch.sequence_search tool [("id", "0.9")] "/tmp/q.fsa" st).1
  = Py.Ok (list_to_set (Cluster.hit_targets (Py.splitlines Doubles.two_part_report))) ∧
  SequenceSearch.files
    (@SequenceSearch.sequence_search tool [("id", "0.9")] "/tmp/q.fsa" st).2
  = {[ "/tmp/q.uc" := Doubles.two_part_report ]}.
Proof.
  intros tool st.
  apply (@sequence_search_returns_hit_targets tool [("id", "0.9")] "/tmp/q.fsa" st
           "usearch/vsearch_linux" "" Doubles.two_part_report
           {[ "/tmp/q.uc" := Doubles.two_part_report ]}).
  - reflexivity.
  - reflexivity.
  - reflexivity.
  - apply two_part_report_readable.
Defined.
